(** * zora-gen-art: the resilient fetch of utils/fetchFirstMinted.ts

    A shallow embedding of [checkRateLimit] and [fetchFirstMintedArtwork]
    (the retrying version, with the module-level rate-limit counters) and
    the properties of the specification that concern them.

    Conventions of the embedding.
    - Timestamps and counters are JavaScript numbers holding integers far
      below 2^53; they are modelled as [Z].
    - Durations handed to [sleep] can be fractional ([parseFloat]) or [NaN]
      ([parseInt] of a non-number); they are modelled by [num], an exact
      rational or [NaN].  IEEE rounding and overflow are not modelled.
    - [Date.now()], [axios.post] and [sleep] are the three effects.  The
      clock and the server are oracles ([clock], [server]) quantified over in
      every theorem; a [World] holds the module state, how often each oracle
      was consulted, and the log of effects.
    - [console.log], [console.warn] and [console.error] are not modelled. *)

From Stdlib Require Import ZArith QArith Qreduction Bool List Lia Lqa Qfield.
From Stdlib Require Import Ascii String DecimalString.
Import ListNotations.

Local Open Scope Z_scope.
Local Open Scope string_scope.

(* ================================================================= *)
(** ** JavaScript numbers as used by the module *)

Inductive num : Type :=
| NaN : num
| Fin (q : Q) : num.

Definition of_Z (z : Z) : num := Fin (inject_Z z).

(** [x * 1000] *)
Definition times1000 (x : num) : num :=
  match x with
  | NaN => NaN
  | Fin q => Fin (Qred (q * inject_Z 1000))
  end.

(** [Math.pow(2, attempt) * k] for the integer multipliers of the module *)
Definition backoff (attempt : nat) (k : Z) : num :=
  of_Z (2 ^ Z.of_nat attempt * k).

(* ================================================================= *)
(** ** Strings: the pieces of [String.prototype.match], [parseFloat] and
       [parseInt] that the 429 branch relies on *)

Definition is_digit (c : ascii) : bool :=
  ((48 <=? nat_of_ascii c) && (nat_of_ascii c <=? 57))%nat.

Definition digit_value (c : ascii) : Z := Z.of_nat (nat_of_ascii c - 48).

(** longest run of [\d] at the head of [s], and what follows it *)
Fixpoint span_digits (s : string) : string * string :=
  match s with
  | String c t =>
      if is_digit c
      then let (d, r) := span_digits t in (String c d, r)
      else (EmptyString, s)
  | EmptyString => (EmptyString, EmptyString)
  end.

Fixpoint all_digits (s : string) : bool :=
  match s with
  | String c t => is_digit c && all_digits t
  | EmptyString => true
  end.

(** What follows a run of digits when the run cannot be extended. *)
Definition no_digit_ahead (s : string) : Prop :=
  match s with
  | String x _ => is_digit x = false
  | EmptyString => True
  end.

(** What capture group 1 of the 429 pattern can hold: digits, then
    possibly a dot and further digits. *)
Definition decimal_literal (c : string) : Prop :=
  exists d1 d2,
    d1 <> EmptyString /\ all_digits d1 = true /\ all_digits d2 = true
    /\ (c = d1 \/ c = d1 ++ "." ++ d2).

(** [strip_prefix p s = Some r] when [s = p ++ r] *)
Fixpoint strip_prefix (p s : string) : option string :=
  match p with
  | EmptyString => Some s
  | String a p' =>
      match s with
      | String b s' => if Ascii.eqb a b then strip_prefix p' s' else None
      | EmptyString => None
      end
  end.

Definition starts_with (p s : string) : bool :=
  match strip_prefix p s with Some _ => true | None => false end.

(** The regular expression of the 429 branch tried at the head of [s]:
    the text [try again after ], then capture group 1 (one or more digits,
    an optional dot, any number of digits), then the text [ seconds].  The
    result is the capture.  The three quantifiers are greedy and giving any
    of them less never helps: after the digits only a dot or the space
    before [seconds] can follow. *)
Definition detail_match_at (s : string) : option string :=
  match strip_prefix "try again after " s with
  | None => None
  | Some r =>
      let (d1, r1) := span_digits r in
      match d1 with
      | EmptyString => None
      | _ =>
          let after_dot :=
            match r1 with
            | String c r2 => if Ascii.eqb c "." then Some r2 else None
            | EmptyString => None
            end in
          match after_dot with
          | Some r2 =>
              let (d2, r3) := span_digits r2 in
              if starts_with " seconds" r3
              then Some (d1 ++ "." ++ d2) else None
          | None => if starts_with " seconds" r1 then Some d1 else None
          end
      end
  end.

(** [detail.match(...)] with that expression: the leftmost position at
    which it matches; [None] is JavaScript's [null]; [Some c] is
    [detailMatch[1]]. *)
Fixpoint detail_match (s : string) : option string :=
  match detail_match_at s with
  | Some c => Some c
  | None =>
      match s with
      | EmptyString => None
      | String _ t => detail_match t
      end
  end.

(** value of a run of decimal digits, most significant first *)
Fixpoint digits_value (acc : Z) (s : string) : Z :=
  match s with
  | EmptyString => acc
  | String c t => digits_value (10 * acc + digit_value c) t
  end.

(** [parseFloat] on the unsigned decimal literals capture group 1 can
    hold: digits, an optional dot, digits.  No digit at all is [NaN]. *)
Definition parseFloat (s : string) : num :=
  let (d1, r1) := span_digits s in
  let d2 := match r1 with
            | String "." r2 => fst (span_digits r2)
            | _ => EmptyString
            end in
  match (d1 ++ d2)%string with
  | EmptyString => NaN
  | ds => Fin (Qred (digits_value 0 ds # Z.to_pos (10 ^ Z.of_nat (String.length d2))))
  end.

(** white space [parseInt] skips (the ASCII part of it) *)
Definition is_space (c : ascii) : bool :=
  let n := nat_of_ascii c in
  ((n =? 32) || ((9 <=? n) && (n <=? 13)))%nat.

Fixpoint skip_spaces (s : string) : string :=
  match s with
  | String c t => if is_space c then skip_spaces t else s
  | EmptyString => EmptyString
  end.

Definition hex_value (c : ascii) : option Z :=
  let n := nat_of_ascii c in
  if ((48 <=? n) && (n <=? 57))%nat then Some (Z.of_nat (n - 48))
  else if ((65 <=? n) && (n <=? 70))%nat then Some (Z.of_nat (n - 55))
  else if ((97 <=? n) && (n <=? 102))%nat then Some (Z.of_nat (n - 87))
  else None.

(** longest run of hexadecimal digits and its value; [None] when empty *)
Fixpoint hex_run (acc : option Z) (s : string) : option Z :=
  match s with
  | String c t =>
      match hex_value c with
      | Some v => hex_run (Some (16 * match acc with Some a => a | None => 0 end + v)) t
      | None => acc
      end
  | EmptyString => acc
  end.

(** [parseInt(s)] with no radix: leading white space, a sign, then either
    [0x]/[0X] and hexadecimal digits or decimal digits; whatever follows
    the digits is ignored, and no digit at all is [NaN]. *)
Definition parseInt (s : string) : num :=
  let s1 := skip_spaces s in
  let (sign, s2) := match s1 with
                    | String "-" t => (-1, t)
                    | String "+" t => (1, t)
                    | _ => (1, s1)
                    end in
  let hex t := match hex_run None t with
               | Some v => of_Z (sign * v)
               | None => NaN
               end in
  match s2 with
  | String "0" (String "x" t) => hex t
  | String "0" (String "X" t) => hex t
  | _ =>
      match fst (span_digits s2) with
      | EmptyString => NaN
      | ds => of_Z (sign * digits_value 0 ds)
      end
  end.

(* ================================================================= *)
(** ** The rate limiter: [requestCount], [lastRequestTime],
       [checkRateLimit] *)

Record RateLimitState : Type := {
  requestCount : Z;
  lastRequestTime : Z   (* the spec's windowStart *)
}.

Definition RATE_LIMIT_WINDOW : Z := 60000.
Definition MAX_REQUESTS_PER_WINDOW : Z := 30.

(** [let requestCount = 0; let lastRequestTime = 0;] *)
Definition initialState : RateLimitState :=
  {| requestCount := 0; lastRequestTime := 0 |}.

(** The body of [checkRateLimit] once [Date.now()] has answered [now]:
    the returned boolean and the module state it leaves. *)
Definition checkRateLimit_at (now : Z) (s : RateLimitState)
  : bool * RateLimitState :=
  let s1 :=
    if now - lastRequestTime s >? RATE_LIMIT_WINDOW
    then {| requestCount := 0; lastRequestTime := now |}
    else s in
  if requestCount s1 >=? MAX_REQUESTS_PER_WINDOW
  then (false, s1)
  else (true, {| requestCount := requestCount s1 + 1;
                 lastRequestTime := lastRequestTime s1 |}).

(** [n] successive calls that all read the same time [now]: the answers,
    oldest first, and the state after the last one. *)
Fixpoint calls_at (now : Z) (n : nat) (s : RateLimitState)
  : list bool * RateLimitState :=
  match n with
  | O => ([], s)
  | S n' =>
      let (b, s1) := checkRateLimit_at now s in
      let (bs, s2) := calls_at now n' s1 in
      (b :: bs, s2)
  end.

(* ================================================================= *)
(** ** Values crossing the boundary of [fetchFirstMintedArtwork] *)

(** The [address] argument as it arrives at run time.  The signature says
    [string]; the validation also looks at values that are not, of which
    only the truthiness and the text [String(v)] are ever observed. *)
Inductive jsval : Type :=
| VString (s : string)
| VOther (truthy : bool) (text : string).

Definition truthy (v : jsval) : bool :=
  match v with
  | VString s => negb (s =? "")
  | VOther b _ => b
  end.

Definition is_string (v : jsval) : bool :=
  match v with VString _ => true | VOther _ _ => false end.

Definition to_text (v : jsval) : string :=
  match v with VString s => s | VOther _ t => t end.

(** [ZoraGraphQLResponse].  Every link is declared mandatory and probed at
    run time as if it could be missing; [None] stands for both [undefined]
    and [null]. *)
Module Envelope.
Record Image : Type := { downloadableUri : option string }.
Record Preview : Type := { previewImage' : option Image }.
Record Media : Type := { previewImage : option Preview }.
Record Node : Type := { media : option Media }.
Record Edge : Type := { node : option Node }.
Record Tokens : Type := { edges : option (list (option Edge)) }.
Record Profile : Type := { collectedCollectionsOrTokens : option Tokens }.
Record Data : Type := { profile : option Profile }.
Record Body : Type := { data : option Data }.
End Envelope.

Record FirstMintedArtwork : Type := {
  downloadableUri : string;
  address : string
}.

(** What the catch block reads of [error.response]: the status, the
    [detail] string of the body ([None] when the body or the field is
    missing) and the [retry-after] header. *)
Record ErrResponse : Type := {
  status : Z;
  detail : option string;
  retry_after : option string
}.

(** An error for which [axios.isAxiosError] holds.  [request] is the
    truthiness of [error.request]; [shown] is [String(error)]. *)
Record AxiosError : Type := {
  response : option ErrResponse;
  request : bool;
  code : option string;
  shown : string
}.

(** How one [axios.post] ends. *)
Inductive outcome : Type :=
| Fulfilled (body : option Envelope.Body)   (* 2xx, with [response.data] *)
| Rejects (e : AxiosError)
| Throws (shown : string).                  (* a rejection that is no AxiosError *)

(** What a [try] block can throw and the [catch] block receive: it is
    what [lastError] holds. *)
Inductive caught : Type :=
| InvalidAddress                       (* [new Error("Invalid address provided")] *)
| TypeErrorReading (prop : string)     (* a property read on [undefined] or [null] *)
| Axios (e : AxiosError)
| Foreign (shown : string).

(** What the promise can reject with. *)
Inductive error : Type :=
| RateLimitExceeded (attempts : nat)   (* thrown by the 429 branch *)
| FetchFailed (address : jsval) (lastError : option caught).
                                       (* thrown after the loop *)

Definition show_nat (n : nat) : string :=
  NilZero.string_of_uint (Nat.to_uint n).

(** [String(error)] for a caught error, as the final template literal
    renders [lastError] (V8's wording for the [TypeError]). *)
Definition caught_text (c : caught) : string :=
  match c with
  | InvalidAddress => "Error: Invalid address provided"
  | TypeErrorReading p =>
      "TypeError: Cannot read properties of undefined (reading '" ++ p ++ "')"
  | Axios a => shown a
  | Foreign t => t
  end.

(** [error.message] of a rejection *)
Definition error_message (e : error) : string :=
  match e with
  | RateLimitExceeded n =>
      "Rate limit exceeded after " ++ show_nat n
        ++ " attempts. Please try again later."
  | FetchFailed a le =>
      "Failed to fetch first minted artwork for address " ++ to_text a ++ ": "
        ++ match le with
           | None => "undefined"
           | Some c => caught_text c
           end
  end.

(** How the promise settles. *)
Inductive result : Type :=
| Resolved (v : option FirstMintedArtwork)   (* [None] is [null] *)
| Rejected (e : error).

(* ================================================================= *)
(** ** Effects *)

(** What the function does to the outside, in order.  [Gate] marks a call
    of [checkRateLimit] with its answer; it is a ghost of the embedding
    (the source only warns on the console when the answer is [false]). *)
Inductive event : Type :=
| Gate (granted : bool)
| Sleep (ms : num)          (* [await sleep(ms)] *)
| Post (address : string).  (* [axios.post], with [variables.address] *)

Record World : Type := {
  limiter : RateLimitState;  (* the two module-level variables *)
  ticks : nat;               (* how many times [Date.now()] was read *)
  posts : nat;               (* how many POSTs were issued *)
  log : list event           (* oldest first *)
}.

(** The world [w] with [evs] appended to its log. *)
Definition logged (w : World) (evs : list event) : World :=
  {| limiter := limiter w; ticks := ticks w;
     posts := posts w; log := (log w ++ evs)%list |}.

(** State passing over the world. *)
Definition M (A : Type) : Type := World -> A * World.

Definition ret {A} (a : A) : M A := fun w => (a, w).

Definition bind {A B} (c : M A) (k : A -> M B) : M B :=
  fun w => let (a, w1) := c w in k a w1.

Declare Scope fetch_scope.
Delimit Scope fetch_scope with fetch.
Notation "x <- c ;; k" := (bind c (fun x => k))
  (at level 61, c at next level, right associativity) : fetch_scope.
Notation "c ;; k" := (bind c (fun _ => k))
  (at level 61, right associativity) : fetch_scope.
Local Open Scope fetch_scope.

(** Optional chaining, [a?.f]. *)
Definition chain {A B} (a : option A) (f : A -> option B) : option B :=
  match a with
  | Some x => f x
  | None => None
  end.
Notation "a ?. f" := (chain a f) (at level 40, left associativity) : fetch_scope.

(** Truthiness of a string that may be missing. *)
Definition present (o : option string) : bool :=
  match o with
  | Some s => negb (s =? "")
  | None => false
  end.

Definition text_of (o : option string) : string :=
  match o with Some s => s | None => "" end.

Inductive action : Type :=
| Continue            (* [continue]: next iteration of the [for] *)
| Break               (* falls out of the [if]s to [break] *)
| Throw (e : error).  (* a [throw] inside the [catch] block *)

Section Fetch.

(** The [n]-th reading of [Date.now()], and how the [n]-th POST ends. *)
Variable clock : nat -> Z.
Variable server : nat -> outcome.

Definition dateNow : M Z := fun w =>
  (clock (ticks w),
   {| limiter := limiter w; ticks := S (ticks w);
      posts := posts w; log := log w |}).

Definition sleep (ms : num) : M unit := fun w =>
  (tt,
   {| limiter := limiter w; ticks := ticks w;
      posts := posts w; log := log w ++ [Sleep ms] |}).

Definition axiosPost (addr : string) : M outcome := fun w =>
  (server (posts w),
   {| limiter := limiter w; ticks := ticks w;
      posts := S (posts w); log := log w ++ [Post addr] |}).

Definition getLastRequestTime : M Z := fun w =>
  (lastRequestTime (limiter w), w).

(** [checkRateLimit()] *)
Definition checkRateLimit : M bool :=
  now <- dateNow ;;
  fun w =>
    let (granted, s) := checkRateLimit_at now (limiter w) in
    (granted,
     {| limiter := s; ticks := ticks w;
        posts := posts w; log := log w ++ [Gate granted] |}).

(** Lines 131-161: what a fulfilled POST is turned into. *)
Definition unwrap (addr : string) (body : option Envelope.Body)
  : caught + option FirstMintedArtwork :=
  match body ?. Envelope.data ?. Envelope.profile
             ?. Envelope.collectedCollectionsOrTokens ?. Envelope.edges with
  | None => inr None
  | Some [] => inr None
  | Some (firstEdge :: _) =>
      match firstEdge with
      | None => inl (TypeErrorReading "node")
      | Some fe =>
          match Envelope.node fe with
          | None => inl (TypeErrorReading "media")
          | Some n =>
              let uri := Envelope.media n ?. Envelope.previewImage
                           ?. Envelope.previewImage'
                           ?. Envelope.downloadableUri in
              if present uri
              then inr (Some {| downloadableUri := text_of uri;
                                address := addr |})
              else inr None
          end
      end
  end.

(** Lines 106-111: the gate in front of the request. *)
Definition acquire : M unit :=
  granted <- checkRateLimit ;;
  if negb granted
  then
    now <- dateNow ;;
    last <- getLastRequestTime ;;
    sleep (of_Z (RATE_LIMIT_WINDOW - (now - last))) ;;
    _ <- checkRateLimit ;;   (* "Check again after waiting" *)
    ret tt
  else ret tt.

(** What the end of the POST means for the [try] block: a rejection is
    thrown on, a fulfilment is unwrapped. *)
Definition settle (addr : string) (out : outcome)
  : caught + option FirstMintedArtwork :=
  match out with
  | Fulfilled body => unwrap addr body
  | Rejects e => inl (Axios e)
  | Throws t => inl (Foreign t)
  end.

(** The [try] block of one iteration: [inl] is a throw, [inr] a return. *)
Definition tryBlock (address : jsval)
  : M (caught + option FirstMintedArtwork) :=
  if negb (truthy address) || negb (is_string address)
  then ret (inl InvalidAddress)
  else
    acquire ;;
    out <- axiosPost (to_text address) ;;
    ret (settle (to_text address) out).

(** [error.response?.status === n] *)
Definition has_status (e : AxiosError) (n : Z) : bool :=
  match response e with
  | Some r => (status r =? n)%Z
  | None => false
  end.

(** Lines 168-192: the wait of the 429 branch. *)
Definition waitTime429 (attempt : nat) (e : AxiosError) : num :=
  let d := response e ?. detail in
  let h := response e ?. retry_after in
  let waitTime := backoff attempt 1000 in
  let waitTime :=
    if present d
    then match detail_match (text_of d) with
         | Some c => times1000 (parseFloat c)
         | None => waitTime
         end
    else waitTime in
  if negb (present d) && present h
  then times1000 (parseInt (text_of h))
  else waitTime.

(** The [catch] block of iteration [attempt], after [lastError = error]. *)
Definition catchBlock (maxRetries attempt : nat) (err : caught) : M action :=
  match err with
  | Axios e =>
      if has_status e 429 then
        if (attempt <? maxRetries)%nat
        then sleep (waitTime429 attempt e) ;; ret Continue
        else ret (Throw (RateLimitExceeded (maxRetries + 1)))
      else if has_status e 403 && (attempt <? maxRetries)%nat then
        sleep (backoff attempt 2000) ;; ret Continue
      else
        match response e with
        | Some r =>
            if (status r >=? 500)%Z && (attempt <? maxRetries)%nat
            then sleep (backoff attempt 1000) ;; ret Continue
            else ret Break
        | None =>
            if request e then
              if (attempt <? maxRetries)%nat
              then sleep (backoff attempt 1000) ;; ret Continue
              else ret Break
            else if present (code e) && (text_of (code e) =? "ECONNABORTED") then
              if (attempt <? maxRetries)%nat
              then sleep (backoff attempt 1000) ;; ret Continue
              else ret Break
            else ret Break
        end
  | _ => ret Break
  end.

(** Lines 283-287: the throw that follows the loop. *)
Definition afterLoop (address : jsval) (lastError : option caught) : result :=
  Rejected (FetchFailed address lastError).

(** The [for] loop from iteration [attempt] on.  [fuel] bounds the
    number of times the loop condition is evaluated; [None] means it
    ran out. *)
Fixpoint forLoop (address : jsval) (maxRetries : nat)
         (fuel attempt : nat) (lastError : option caught)
  : M (option result) :=
  match fuel with
  | O => ret None
  | S fuel' =>
      if (attempt <=? maxRetries)%nat then
        r <- tryBlock address ;;
        match r with
        | inr v => ret (Some (Resolved v))
        | inl err =>
            a <- catchBlock maxRetries attempt err ;;
            match a with
            | Continue => forLoop address maxRetries fuel' (S attempt) (Some err)
            | Break => ret (Some (afterLoop address (Some err)))
            | Throw e => ret (Some (Rejected e))
            end
        end
      else ret (Some (afterLoop address lastError))
  end.

(** [fetchFirstMintedArtwork(address, maxRetries)]: iterations
    [0..maxRetries] and one more evaluation of the loop condition. *)
Definition fetchFirstMintedArtwork (address : jsval) (maxRetries : nat)
  : M (option result) :=
  forLoop address maxRetries (maxRetries + 2) 0 None.

End Fetch.

(* ================================================================= *)
(** ** Definitions that follow the specification's words *)

(** The wait of a 429 as the specification orders it: the [detail] hint
    when it is there and matches, else the [Retry-After] header when it is
    there, else the exponential backoff. *)
Definition claimed_wait429 (attempt : nat) (e : AxiosError) : num :=
  let d := response e ?. detail in
  let h := response e ?. retry_after in
  match (if present d then detail_match (text_of d) else None) with
  | Some c => times1000 (parseFloat c)
  | None =>
      if present h
      then times1000 (parseInt (text_of h))
      else backoff attempt 1000
  end.

(** The failure classes the specification retries: HTTP 429, 403 and 5xx,
    a request without response, a client-side timeout. *)
Definition retryable (c : caught) : bool :=
  match c with
  | Axios e =>
      match response e with
      | Some r => (status r =? 429)%Z || (status r =? 403)%Z || (500 <=? status r)%Z
      | None => request e || (present (code e) && (text_of (code e) =? "ECONNABORTED"))
      end
  | _ => false
  end.

(** Why a call that issued its last POST at iteration [j] of
    [0..maxRetries], ending as [out], settled as [r]: a return is what the
    unwrapping of [out] gave; the 429 error is thrown at the last
    iteration only; the final error wraps the error of [out], and the loop
    was left either at the last iteration or on an error outside the
    retried classes. *)
Definition ends_with (addr : string) (maxRetries j : nat) (out : outcome)
           (r : result) : Prop :=
  match r with
  | Resolved v => settle addr out = inr v
  | Rejected (RateLimitExceeded m) =>
      m = (maxRetries + 1)%nat /\ j = maxRetries
      /\ exists e, out = Rejects e /\ has_status e 429 = true
  | Rejected (FetchFailed ad le) =>
      ad = VString addr
      /\ exists err, le = Some err /\ settle addr out = inl err
                     /\ (j = maxRetries \/ retryable err = false)
  end.

(** The log of one passage through the gate: a grant, or a refusal, one
    sleep, and one second call whatever it answers. *)
Inductive gating : list event -> Prop :=
| gating_granted : gating [Gate true]
| gating_waited (ms : num) (again : bool) :
    gating [Gate false; Sleep ms; Gate again].

(** The log of attempts [k..n] when every attempt fails and is retried
    after [wait k], the last one excepted. *)
Inductive rounds (addr : string) (wait : nat -> num)
  : nat -> nat -> list event -> Prop :=
| rounds_last n g :
    gating g -> rounds addr wait n n (g ++ [Post addr])%list
| rounds_retry k n g l :
    (k < n)%nat -> gating g -> rounds addr wait (S k) n l ->
    rounds addr wait k n (g ++ [Post addr; Sleep (wait k)] ++ l)%list.

(** A response in which every link down to the first edge's leaf is
    there, with [uri] at the leaf and [others] after the first edge. *)
Definition envelope_with_leaf (uri : option string)
           (others : list (option Envelope.Edge)) : Envelope.Body :=
  let image := {| Envelope.downloadableUri := uri |} in
  let preview := {| Envelope.previewImage' := Some image |} in
  let media := {| Envelope.previewImage := Some preview |} in
  let node := {| Envelope.media := Some media |} in
  let edge := {| Envelope.node := Some node |} in
  {| Envelope.data := Some {| Envelope.profile := Some
       {| Envelope.collectedCollectionsOrTokens := Some
            {| Envelope.edges := Some (Some edge :: others) |} |} |} |}.

(** A response with the given [edges] under an otherwise complete path. *)
Definition envelope_with_edges (edges : option (list (option Envelope.Edge)))
  : Envelope.Body :=
  {| Envelope.data := Some {| Envelope.profile := Some
       {| Envelope.collectedCollectionsOrTokens := Some
            {| Envelope.edges := edges |} |} |} |}.

(** A 429 whose body says something else than the pattern while a
    [Retry-After] header is there. *)
Definition e429_other_detail : AxiosError :=
  {| response := Some {| status := 429;
                         detail := Some "Too many requests";
                         retry_after := Some "5" |};
     request := true; code := None;
     shown := "AxiosError: Request failed with status code 429" |}.

(** A 429 with the given body hint and header. *)
Definition e429 (d h : option string) : AxiosError :=
  {| response := Some {| status := 429; detail := d; retry_after := h |};
     request := true; code := None;
     shown := "AxiosError: Request failed with status code 429" |}.

(** A server that answers every POST with the same status. *)
Definition always_status (st : Z) : nat -> outcome :=
  fun _ => Rejects {| response := Some {| status := st; detail := None;
                                          retry_after := None |};
                      request := true; code := None;
                      shown := "AxiosError: Request failed" |}.

(** The world at module load. *)
Definition world0 : World :=
  {| limiter := initialState; ticks := 0; posts := 0; log := [] |}.

(** A world in which the quota of the current window is used up. *)
Definition world_full : World :=
  {| limiter := {| requestCount := 30; lastRequestTime := 1000 |};
     ticks := 0; posts := 0; log := [] |}.

(** A first edge that has no [node]. *)
Definition envelope_without_node : Envelope.Body :=
  envelope_with_edges (Some [Some {| Envelope.node := None |}]).

(** [maxRetries: number = 3] *)
Definition DEFAULT_MAX_RETRIES : nat := 3.

(* ================================================================= *)
(** ** The gate over a sequence of calls *)

(** Successive calls of [checkRateLimit] that read the times [ts] in turn:
    the answers, oldest first, and the state after the last one. *)
Fixpoint calls (ts : list Z) (s : RateLimitState)
  : list bool * RateLimitState :=
  match ts with
  | nil => (nil, s)
  | t :: ts' =>
      let (b, s1) := checkRateLimit_at t s in
      let (bs, s2) := calls ts' s1 in
      (b :: bs, s2)
  end.

(** How many calls were granted. *)
Definition grants (answers : list bool) : Z :=
  Z.of_nat (List.length (List.filter (fun b : bool => b) answers)).

(* ================================================================= *)
(** ** The version of the module without retries

    The same file before the retry loop and the rate limiter were added:
    one [try] around the validation, the POST and the unwrapping, and a
    [catch] that wraps whatever was thrown. *)

Module Unretried.
Section Fetch.

Variable server : nat -> outcome.

(** [fetchFirstMintedArtwork(address)] *)
Definition fetchFirstMintedArtwork (address : jsval) : M result :=
  if negb (truthy address) || negb (is_string address)
  then ret (Rejected (FetchFailed address (Some InvalidAddress)))
  else
    out <- axiosPost server (to_text address) ;;
    ret match settle (to_text address) out with
        | inr v => Resolved v
        | inl err => Rejected (FetchFailed address (Some err))
        end.

End Fetch.
End Unretried.

(* ================================================================= *)
(** ** The HTTP handler of api/index.ts

    The canvas is modelled by the list of drawing calls made on it, which
    is what [toBuffer] encodes; [registerFont] and [loadImage] are oracles.
    Lengths are exact rationals. *)

(** A loaded image: where it came from and its size in pixels. *)
Record Image : Type := {
  src : string;
  width : positive;
  height : positive
}.

(** The calls on the 2D context.  [DrawImage] carries the destination
    size when the five-argument form is used. *)
Inductive drawing : Type :=
| DrawImage (img : Image) (x y : Q) (size : option (Q * Q))
| StrokeRect (strokeStyle : string) (lineWidth : Q) (x y w h : Q).

(** What the handler sends. *)
Inductive reply : Type :=
| JsonError (status : Z) (error : string)
| PngImage (canvasWidth canvasHeight : positive) (drawn : list drawing)
           (headers : list (string * string)).

Definition PLACEHOLDER_URL : string :=
  "https://www.svgrepo.com/show/508699/landscape-placeholder.svg".

(** [res.status(500).json({ error: "Internal server error" })] *)
Definition internalError : reply := JsonError 500 "Internal server error".

(** [res.status(400).json(...)] *)
Definition badRequest : reply :=
  JsonError 400 "Valid Ethereum address is required".

Definition pngHeaders : list (string * string) :=
  [("Content-Type", "image/png"); ("Cache-Control", "public, max-age=300")]%list.

Definition Qpos (p : positive) : Q := inject_Z (Z.pos p).

(** The placement of the artwork, first version of the handler: fitted
    into 710 x 710 keeping the aspect ratio, centred, then shifted 2.5 to
    the right and 28.5 up.  The result is [(x, y, displayWidth,
    displayHeight)]. *)
Definition layoutFit (canvasWidth canvasHeight : positive) (img : Image)
  : Q * Q * Q * Q :=
  let maxWidth := inject_Z 710 in
  let maxHeight := inject_Z 710 in
  let aspectRatio := (Qpos (width img) / Qpos (height img))%Q in
  let shiftUp := (57 # 2)%Q in
  let shiftRight := (5 # 2)%Q in
  let displayWidth := maxWidth in
  let displayHeight := (maxWidth / aspectRatio)%Q in
  let (displayWidth, displayHeight) :=
    if negb (Qle_bool displayHeight maxHeight)   (* displayHeight > maxHeight *)
    then ((maxHeight * aspectRatio)%Q, maxHeight)
    else (displayWidth, displayHeight) in
  let x := ((Qpos canvasWidth - displayWidth) / inject_Z 2 + shiftRight)%Q in
  let y := ((Qpos canvasHeight - displayHeight) / inject_Z 2 - shiftUp)%Q in
  (x, y, displayWidth, displayHeight).

(** The placement in the second version: a fixed 300 x 300, centred. *)
Definition layoutFixed (canvasWidth canvasHeight : positive) (img : Image)
  : Q * Q * Q * Q :=
  let displayWidth := inject_Z 300 in
  let displayHeight := inject_Z 300 in
  let x := ((Qpos canvasWidth - displayWidth) / inject_Z 2)%Q in
  let y := ((Qpos canvasHeight - displayHeight) / inject_Z 2)%Q in
  (x, y, displayWidth, displayHeight).

Section Handler.

Variable clock : nat -> Z.
Variable server : nat -> outcome.

(** Whether [registerFont] throws. *)
Variable registerFontThrows : bool.

(** [loadImage]: what the [n]-th call of a request, on the given source,
    resolves with ([None] when it rejects). *)
Variable loadImage : nat -> string -> option (positive * positive).

(** [path.join(process.cwd(), "public", "template.png")] *)
Variable templatePath : string.

(** The placement used by the version of the handler at hand. *)
Variable layout : positive -> positive -> Image -> Q * Q * Q * Q.

Definition load (n : nat) (source : string) : option Image :=
  match loadImage n source with
  | Some (w, h) => Some {| src := source; width := w; height := h |}
  | None => None
  end.

(** Lines 42-68: the image to show, the artwork or else the placeholder;
    [n] is the number of [loadImage] calls made so far. *)
Definition chooseImage (n : nat) (firstMintedArtwork : option FirstMintedArtwork)
  : option Image :=
  let '(artworkImage, usePlaceholder, n) :=
    match firstMintedArtwork with
    | Some art =>
        if negb (downloadableUri art =? "")
        then match load n (downloadableUri art) with
             | Some img => (Some img, false, S n)
             | None => (None, true, S n)
             end
        else (None, true, n)
    | None => (None, true, n)
    end in
  if usePlaceholder then load n PLACEHOLDER_URL else artworkImage.

(** Lines 35-106: the canvas and the response once the template and the
    fetch result are there. *)
Definition render (templateImage : Image)
           (firstMintedArtwork : option FirstMintedArtwork) : reply :=
  let canvasWidth := width templateImage in
  let canvasHeight := height templateImage in
  let drawn := [DrawImage templateImage 0 0 None]%list in
  let drawn :=
    match chooseImage 1 firstMintedArtwork with
    | Some artworkImage =>
        let '(x, y, displayWidth, displayHeight) :=
          layout canvasWidth canvasHeight artworkImage in
        (drawn ++ [DrawImage artworkImage x y (Some (displayWidth, displayHeight));
                   StrokeRect "rgba(255, 255, 255, 0.3)" (inject_Z 2)
                              (x - inject_Z 2)%Q (y - inject_Z 2)%Q
                              (displayWidth + inject_Z 4)%Q
                              (displayHeight + inject_Z 4)%Q])%list
    | None => drawn
    end in
  PngImage canvasWidth canvasHeight drawn pngHeaders.

(** [handler(req, res)] with [req.query.address = address]; [None] only
    if the fetch ran out of fuel. *)
Definition handler (address : jsval) : M (option reply) :=
  if negb (truthy address) then ret (Some badRequest)
  else if registerFontThrows then ret (Some internalError)
  else
    match load 0 templatePath with
    | None => ret (Some internalError)
    | Some templateImage =>
        r <- fetchFirstMintedArtwork clock server address DEFAULT_MAX_RETRIES ;;
        ret match r with
            | None => None
            | Some (Rejected _) => Some internalError
            | Some (Resolved firstMintedArtwork) =>
                Some (render templateImage firstMintedArtwork)
            end
    end.

End Handler.

(** How the call settles when the catch block of the last POST, which
    failed with [err], ended by [act] without continuing. *)
Definition final_result (a : string) (err : caught) (act : action) : result :=
  match act with
  | Throw e => Rejected e
  | _ => afterLoop (VString a) (Some err)
  end.

(** A clock for which a sleep started at the second reading lasts exactly
    as asked: readings 0 and 1 give [t], the later ones [t + ms]. *)
Definition clock_exact (t ms : Z) : nat -> Z :=
  fun n => if (n <? 2)%nat then t else t + ms.

(** A server that is never reached. *)
Definition e_network : AxiosError :=
  {| response := None; request := true; code := Some "ECONNREFUSED";
     shown := "AxiosError: connect ECONNREFUSED" |}.

(** Two 503 and then an envelope. *)
Definition server_recovering : nat -> outcome :=
  fun i => if (i <? 2)%nat then always_status 503 i
           else Fulfilled (Some (envelope_with_leaf (Some "ipfs://abc") [])).

(** An ASCII letter, as an HTTP-date begins with. *)
Definition is_letter (c : ascii) : bool :=
  let n := nat_of_ascii c in
  (((65 <=? n) && (n <=? 90)) || ((97 <=? n) && (n <=? 122)))%nat.

(* ================================================================= *)
(** * Properties *)

Local Open Scope list_scope.

(** ** Sanity checks of the string functions *)

Example parseFloat_2_5 : times1000 (parseFloat "2.5") = of_Z 2500.
Proof. reflexivity. Qed.

Example parseFloat_12_dot : parseFloat "12." = of_Z 12.
Proof. reflexivity. Qed.

Example parseInt_5 : times1000 (parseInt "5") = of_Z 5000.
Proof. reflexivity. Qed.

Example parseInt_date : parseInt "Wed, 21 Oct 2015 07:28:00 GMT" = NaN.
Proof. reflexivity. Qed.

Example detail_match_ex :
  detail_match "Rate limit exceeded, try again after 2.5 seconds" = Some "2.5".
Proof. reflexivity. Qed.

Example detail_match_none : detail_match "Too many requests" = None.
Proof. reflexivity. Qed.

Example detail_match_leftmost :
  detail_match "try again after x seconds, try again after 7 seconds" = Some "7".
Proof. reflexivity. Qed.

Example detail_match_needs_unit : detail_match "try again after 30 minutes" = None.
Proof. reflexivity. Qed.

Example parseInt_hex : parseInt " 0x1f" = of_Z 31.
Proof. reflexivity. Qed.

Example parseInt_trailing : parseInt "120, 60" = of_Z 120.
Proof. reflexivity. Qed.

(* ================================================================= *)
(** ** The rate limiter *)

Section Limiter.

Implicit Types (now : Z) (s : RateLimitState).

(** The window has elapsed: the counter restarts at this very call. *)
Lemma gate_reset now s :
  now - lastRequestTime s > RATE_LIMIT_WINDOW ->
  checkRateLimit_at now s
  = (true, {| requestCount := 1; lastRequestTime := now |}).
Proof.
  intros H. unfold checkRateLimit_at.
  rewrite Z.gtb_ltb.
  destruct (Z.ltb_spec RATE_LIMIT_WINDOW (now - lastRequestTime s)); [|lia].
  reflexivity.
Qed.

(** Inside the window with the quota used up: refused, nothing written. *)
Lemma gate_refuse now s :
  now - lastRequestTime s <= RATE_LIMIT_WINDOW ->
  requestCount s >= MAX_REQUESTS_PER_WINDOW ->
  checkRateLimit_at now s = (false, s).
Proof.
  intros Hw Hc. unfold checkRateLimit_at.
  rewrite Z.gtb_ltb.
  destruct (Z.ltb_spec RATE_LIMIT_WINDOW (now - lastRequestTime s)); [lia|].
  rewrite Z.geb_leb.
  destruct (Z.leb_spec MAX_REQUESTS_PER_WINDOW (requestCount s)); [|lia].
  reflexivity.
Qed.

(** Inside the window with quota left: granted and counted. *)
Lemma gate_grant now s :
  now - lastRequestTime s <= RATE_LIMIT_WINDOW ->
  requestCount s < MAX_REQUESTS_PER_WINDOW ->
  checkRateLimit_at now s
  = (true, {| requestCount := requestCount s + 1;
              lastRequestTime := lastRequestTime s |}).
Proof.
  intros Hw Hc. unfold checkRateLimit_at.
  rewrite Z.gtb_ltb.
  destruct (Z.ltb_spec RATE_LIMIT_WINDOW (now - lastRequestTime s)); [lia|].
  rewrite Z.geb_leb.
  destruct (Z.leb_spec MAX_REQUESTS_PER_WINDOW (requestCount s)); [lia|].
  reflexivity.
Qed.

(** A refusal is never combined with a reset. *)
Lemma gate_false_inv now s s' :
  checkRateLimit_at now s = (false, s') ->
  s' = s /\ now - lastRequestTime s <= RATE_LIMIT_WINDOW
  /\ requestCount s >= MAX_REQUESTS_PER_WINDOW.
Proof.
  intros H.
  destruct (Z_gt_le_dec (now - lastRequestTime s) RATE_LIMIT_WINDOW) as [Hr|Hr].
  - rewrite (gate_reset _ _ Hr) in H. discriminate.
  - destruct (Z_lt_ge_dec (requestCount s) MAX_REQUESTS_PER_WINDOW) as [Hc|Hc].
    + rewrite (gate_grant _ _ Hr Hc) in H. discriminate.
    + rewrite (gate_refuse _ _ Hr Hc) in H. injection H as <-.
      repeat split; assumption.
Qed.

Lemma calls_at_app now n m s :
  calls_at now (n + m) s
  = (fst (calls_at now n s) ++ fst (calls_at now m (snd (calls_at now n s))),
     snd (calls_at now m (snd (calls_at now n s)))).
Proof.
  revert s. induction n as [|n IH]; intros s; simpl.
  - destruct (calls_at now m s); reflexivity.
  - destruct (checkRateLimit_at now s) as [b s1].
    rewrite IH.
    destruct (calls_at now n s1) as [bs s2]. reflexivity.
Qed.

(** As long as the quota lasts, calls at one instant are all granted. *)
Lemma calls_at_granted now n s :
  now - lastRequestTime s <= RATE_LIMIT_WINDOW ->
  requestCount s + Z.of_nat n <= MAX_REQUESTS_PER_WINDOW ->
  calls_at now n s
  = (repeat true n,
     {| requestCount := requestCount s + Z.of_nat n;
        lastRequestTime := lastRequestTime s |}).
Proof.
  revert s. induction n as [|n IH]; intros s Hw Hc.
  - simpl. destruct s; simpl. rewrite Z.add_0_r. reflexivity.
  - cbn [calls_at]. rewrite gate_grant by lia.
    rewrite IH; cbn [requestCount lastRequestTime]; try lia.
    simpl repeat. f_equal. f_equal. lia.
Qed.

(** Thirty-one calls at one instant, entering a fresh window. *)
Lemma fresh_window_31 now s :
  requestCount s = 0 \/ now - lastRequestTime s > RATE_LIMIT_WINDOW ->
  exists start,
    (start = lastRequestTime s \/ start = now)
    /\ now - start <= RATE_LIMIT_WINDOW
    /\ calls_at now 31 s
       = (repeat true 30 ++ [false],
          {| requestCount := 30; lastRequestTime := start |}).
Proof.
  intros H.
  destruct (Z_gt_le_dec (now - lastRequestTime s) RATE_LIMIT_WINDOW) as [Hr|Hr].
  - exists now. split; [now right|]. split; [unfold RATE_LIMIT_WINDOW; lia|].
    change 31%nat with (1 + (29 + 1))%nat.
    rewrite calls_at_app. cbn [calls_at]. rewrite (gate_reset _ _ Hr).
    cbn [fst snd]. rewrite calls_at_app.
    rewrite calls_at_granted;
      cbn [requestCount lastRequestTime fst snd];
      unfold RATE_LIMIT_WINDOW, MAX_REQUESTS_PER_WINDOW; try lia.
    cbn [calls_at]. rewrite gate_refuse;
      cbn [requestCount lastRequestTime];
      unfold RATE_LIMIT_WINDOW, MAX_REQUESTS_PER_WINDOW; try lia.
    reflexivity.
  - destruct H as [H|H]; [|lia].
    exists (lastRequestTime s). split; [now left|]. split; [assumption|].
    change 31%nat with (30 + 1)%nat.
    rewrite calls_at_app.
    rewrite calls_at_granted; rewrite ?H;
      unfold MAX_REQUESTS_PER_WINDOW; try lia; try assumption.
    cbn [fst snd calls_at]. rewrite gate_refuse;
      cbn [requestCount lastRequestTime];
      unfold MAX_REQUESTS_PER_WINDOW; try lia; try assumption.
    reflexivity.
Qed.

End Limiter.

(** C1.  One call of the gate at time [now]: past the 60 s window it
    restarts the counter and the window and grants (counter 1); inside the
    window it refuses at 30 or more without writing anything, and otherwise
    counts and grants.  Hence thirty-one calls at one instant entering a
    fresh window answer thirty times [true] and then [false], and the first
    call more than 60 s after the window start is granted with the counter
    back at 1. *)
Theorem checkRateLimit_quota (now : Z) (s : RateLimitState) :
  (now - lastRequestTime s > 60000 ->
   checkRateLimit_at now s
   = (true, {| requestCount := 1; lastRequestTime := now |}))
  /\ (now - lastRequestTime s <= 60000 -> requestCount s >= 30 ->
      checkRateLimit_at now s = (false, s))
  /\ (now - lastRequestTime s <= 60000 -> requestCount s < 30 ->
      checkRateLimit_at now s
      = (true, {| requestCount := requestCount s + 1;
                  lastRequestTime := lastRequestTime s |}))
  /\ (requestCount s = 0 \/ now - lastRequestTime s > 60000 ->
      let after := snd (calls_at now 31 s) in
      fst (calls_at now 31 s) = repeat true 30 ++ [false]
      /\ requestCount after = 30
      /\ forall later,
           later - lastRequestTime after > 60000 ->
           checkRateLimit_at later after
           = (true, {| requestCount := 1; lastRequestTime := later |})).
Proof.
  split; [apply gate_reset|].
  split; [apply gate_refuse|].
  split; [apply gate_grant|].
  intros H. destruct (fresh_window_31 now s H) as (start & _ & _ & E).
  cbv zeta. rewrite E. cbn [fst snd requestCount].
  split; [reflexivity|]. split; [reflexivity|].
  intros later Hl. apply gate_reset. exact Hl.
Qed.

Lemma checkRateLimit_quota_witness :
  checkRateLimit_at 61000 initialState
  = (true, {| requestCount := 1; lastRequestTime := 61000 |})
  /\ checkRateLimit_at 5 {| requestCount := 30; lastRequestTime := 0 |}
     = (false, {| requestCount := 30; lastRequestTime := 0 |})
  /\ checkRateLimit_at 5 {| requestCount := 29; lastRequestTime := 0 |}
     = (true, {| requestCount := 30; lastRequestTime := 0 |})
  /\ fst (calls_at 61000 31 initialState) = repeat true 30 ++ [false]
  /\ checkRateLimit_at 121001 (snd (calls_at 61000 31 initialState))
     = (true, {| requestCount := 1; lastRequestTime := 121001 |}).
Proof.
  split.
  { apply (checkRateLimit_quota 61000 initialState). reflexivity. }
  split.
  { apply (checkRateLimit_quota 5 {| requestCount := 30; lastRequestTime := 0 |});
      simpl; lia. }
  split.
  { apply (checkRateLimit_quota 5 {| requestCount := 29; lastRequestTime := 0 |});
      simpl; lia. }
  assert (Hf : requestCount initialState = 0
               \/ 61000 - lastRequestTime initialState > 60000)
    by (left; reflexivity).
  destruct (proj2 (proj2 (proj2 (checkRateLimit_quota 61000 initialState))) Hf)
    as (Ha & _ & Hc).
  split; [exact Ha|].
  apply Hc. vm_compute. reflexivity.
Defined.

(** C10.  A call of the gate issues no request and no sleep and writes
    only the two counters.  The window start moves only when the 60 s
    reset fires, and then to the current time; a grant inside the window
    adds one to the counter and keeps the window start; a refusal leaves
    both as they were. *)
Theorem checkRateLimit_frame (clock : nat -> Z) (w : World) :
  let now := clock (ticks w) in
  let granted := fst (checkRateLimit clock w) in
  let w' := snd (checkRateLimit clock w) in
  posts w' = posts w
  /\ log w' = log w ++ [Gate granted]
  /\ (lastRequestTime (limiter w') <> lastRequestTime (limiter w) ->
      now - lastRequestTime (limiter w) > 60000
      /\ lastRequestTime (limiter w') = now)
  /\ (granted = true -> now - lastRequestTime (limiter w) <= 60000 ->
      requestCount (limiter w') = requestCount (limiter w) + 1
      /\ lastRequestTime (limiter w') = lastRequestTime (limiter w))
  /\ (granted = false -> limiter w' = limiter w).
Proof.
  cbv zeta. unfold checkRateLimit, bind, dateNow. cbn [limiter ticks posts log].
  set (now := clock (ticks w)). set (s := limiter w).
  destruct (Z_gt_le_dec (now - lastRequestTime s) RATE_LIMIT_WINDOW) as [Hr|Hr].
  - rewrite (gate_reset _ _ Hr). unfold RATE_LIMIT_WINDOW in Hr. cbn.
    repeat split; intros; try reflexivity; try discriminate; lia.
  - destruct (Z_lt_ge_dec (requestCount s) MAX_REQUESTS_PER_WINDOW) as [Hc|Hc].
    + rewrite (gate_grant _ _ Hr Hc). cbn.
      repeat split; intros; try reflexivity; try discriminate; congruence.
    + rewrite (gate_refuse _ _ Hr Hc). cbn.
      repeat split; intros; try reflexivity; try discriminate; congruence.
Qed.

Lemma checkRateLimit_frame_witness :
  (* a refusal: quota used up inside the window *)
  limiter (snd (checkRateLimit (fun _ => 2000) world_full)) = limiter world_full
  (* a grant inside the window *)
  /\ requestCount (limiter (snd (checkRateLimit (fun _ => 0) world0))) = 0 + 1
  /\ lastRequestTime (limiter (snd (checkRateLimit (fun _ => 0) world0))) = 0
  (* no POST either way *)
  /\ posts (snd (checkRateLimit (fun _ => 2000) world_full)) = 0%nat.
Proof.
  split.
  { exact (proj2 (proj2 (proj2 (proj2
             (checkRateLimit_frame (fun _ => 2000) world_full)))) eq_refl). }
  assert (Hin : 0 - lastRequestTime (limiter world0) <= 60000)
    by (vm_compute; discriminate).
  destruct (proj1 (proj2 (proj2 (proj2
             (checkRateLimit_frame (fun _ => 0) world0)))) eq_refl Hin)
    as [Hc Hl].
  split; [exact Hc|]. split; [exact Hl|].
  exact (proj1 (checkRateLimit_frame (fun _ => 2000) world_full)).
Defined.

(* ================================================================= *)
(** ** The pattern of the 429 hint *)

Section Pattern.

Lemma string_app_assoc (a b c : string) :
  ((a ++ b) ++ c = a ++ (b ++ c))%string.
Proof. induction a as [|x a IH]; simpl; [reflexivity | now rewrite IH]. Qed.

Lemma strip_prefix_sound p : forall s r,
  strip_prefix p s = Some r -> s = (p ++ r)%string.
Proof.
  induction p as [|a p IH]; intros s r H; simpl in H.
  - now injection H as ->.
  - destruct s as [|b s]; [discriminate|].
    destruct (Ascii.eqb_spec a b) as [->|]; [|discriminate].
    simpl. f_equal. now apply IH.
Qed.

Lemma span_digits_sound s : forall d r,
  span_digits s = (d, r) -> s = (d ++ r)%string /\ all_digits d = true.
Proof.
  induction s as [|c s IH]; intros d r H; simpl in H.
  - injection H as <- <-. now split.
  - destruct (is_digit c) eqn:Hc.
    + destruct (span_digits s) as [d' r'] eqn:E.
      injection H as <- <-.
      destruct (IH d' r' eq_refl) as [-> Hd].
      split; [reflexivity|]. simpl. now rewrite Hc.
    + injection H as <- <-. now split.
Qed.

Lemma detail_match_at_sound s c :
  detail_match_at s = Some c ->
  decimal_literal c
  /\ exists post, s = ("try again after " ++ c ++ " seconds" ++ post)%string.
Proof.
  unfold detail_match_at. intros H.
  destruct (strip_prefix "try again after " s) as [r|] eqn:Ep; [|discriminate].
  apply strip_prefix_sound in Ep.
  destruct (span_digits r) as [d1 r1] eqn:E1.
  apply span_digits_sound in E1 as [Er Hd1].
  destruct d1 as [|x d1]; [discriminate|].
  set (D1 := String x d1) in *.
  assert (HD1 : D1 <> EmptyString) by (unfold D1; discriminate).
  destruct r1 as [|y r2].
  - unfold starts_with in H. simpl in H. discriminate.
  - destruct (Ascii.eqb_spec y ".") as [->|Hy].
    + destruct (span_digits r2) as [d2 r3] eqn:E2.
      apply span_digits_sound in E2 as [Er2 Hd2].
      unfold starts_with in H.
      destruct (strip_prefix " seconds" r3) as [post|] eqn:Es; [|discriminate].
      apply strip_prefix_sound in Es. injection H as <-.
      split.
      * exists D1, d2. repeat split; auto.
      * exists post. subst s r r2 r3.
        simpl. rewrite !string_app_assoc. reflexivity.
    + unfold starts_with in H.
      destruct (strip_prefix " seconds" (String y r2)) as [post|] eqn:Es;
        [|discriminate].
      apply strip_prefix_sound in Es. injection H as <-.
      split.
      * exists D1, EmptyString. repeat split; auto.
      * exists post. subst s r. rewrite Es. reflexivity.
Qed.

(** A match is an occurrence of [try again after N seconds] in the
    text, and the capture is its [N]. *)
Lemma detail_match_sound s : forall c,
  detail_match s = Some c ->
  decimal_literal c
  /\ exists pre post,
       s = (pre ++ "try again after " ++ c ++ " seconds" ++ post)%string.
Proof.
  induction s as [|a s IH]; intros c H.
  - simpl in H. discriminate.
  - cbn [detail_match] in H.
    destruct (detail_match_at (String a s)) as [c'|] eqn:E.
    + injection H as ->.
      apply detail_match_at_sound in E as [Hc [post Hs]].
      split; [assumption|]. exists EmptyString, post. exact Hs.
    + destruct (IH c H) as [Hc (pre & post & Hs)].
      split; [assumption|].
      exists (String a pre), post. rewrite Hs at 1. reflexivity.
Qed.

Lemma strip_prefix_app p r : strip_prefix p (p ++ r)%string = Some r.
Proof.
  induction p as [|x p IH]; simpl; [reflexivity|].
  now rewrite Ascii.eqb_refl.
Qed.

Lemma span_digits_app d rest :
  all_digits d = true -> no_digit_ahead rest ->
  span_digits (d ++ rest)%string = (d, rest).
Proof.
  intros Hd Hr. induction d as [|x d IH]; simpl in *.
  - destruct rest as [|y rest]; simpl in *; [reflexivity|]. now rewrite Hr.
  - apply andb_true_iff in Hd as [Hx Hd]. rewrite Hx, (IH Hd). reflexivity.
Qed.

Lemma detail_match_unfold s :
  detail_match s
  = match detail_match_at s with
    | Some c => Some c
    | None => match s with
              | EmptyString => None
              | String _ t => detail_match t
              end
    end.
Proof. destruct s; reflexivity. Qed.

(** At the head of an occurrence the expression matches and captures
    the number. *)
Lemma detail_match_at_complete c post :
  decimal_literal c ->
  detail_match_at ("try again after " ++ c ++ " seconds" ++ post)%string
  = Some c.
Proof.
  intros (d1 & d2 & Hne & Hd1 & Hd2 & [-> | ->]); unfold detail_match_at;
    rewrite strip_prefix_app.
  - rewrite (span_digits_app d1 (" seconds" ++ post)%string Hd1) by reflexivity.
    destruct d1 as [|x d1]; [congruence|]. reflexivity.
  - replace ((d1 ++ "." ++ d2) ++ " seconds" ++ post)%string
      with (d1 ++ String "." (d2 ++ " seconds" ++ post))%string
      by (rewrite !string_app_assoc; reflexivity).
    rewrite (span_digits_app d1 _ Hd1) by reflexivity.
    destruct d1 as [|x d1]; [congruence|].
    cbn [Ascii.eqb Bool.eqb].
    rewrite (span_digits_app d2 (" seconds" ++ post)%string Hd2) by reflexivity.
    reflexivity.
Qed.

(** A text that holds an occurrence of the pattern is matched (at that
    occurrence or at an earlier one). *)
Lemma detail_match_complete pre c post :
  decimal_literal c ->
  detail_match (pre ++ "try again after " ++ c ++ " seconds" ++ post)%string
  <> None.
Proof.
  intros Hc.
  pose proof (detail_match_at_complete c post Hc) as HX.
  set (X := ("try again after " ++ c ++ " seconds" ++ post)%string) in *.
  clearbody X. induction pre as [|x pre IH].
  - change (detail_match X <> None).
    rewrite detail_match_unfold, HX. discriminate.
  - rewrite detail_match_unfold.
    destruct (detail_match_at (String x pre ++ X)); [discriminate | exact IH].
Qed.

End Pattern.

(* ================================================================= *)
(** ** The catch block *)

Section CatchBlock.

Variables (maxRetries attempt : nat) (w : World).

Lemma sleep_continue ms :
  (sleep ms ;; ret Continue) w = (Continue, logged w [Sleep ms]).
Proof. reflexivity. Qed.

(** A 429 with attempts left sleeps for [waitTime429] and goes on. *)
Lemma catch_429_retry e :
  has_status e 429 = true -> (attempt < maxRetries)%nat ->
  catchBlock maxRetries attempt (Axios e) w
  = (Continue, logged w [Sleep (waitTime429 attempt e)]).
Proof.
  intros Hs Ha. unfold catchBlock. rewrite Hs.
  apply Nat.ltb_lt in Ha. rewrite Ha. reflexivity.
Qed.

(** A 429 on the last attempt throws out of the catch block. *)
Lemma catch_429_exhausted e :
  has_status e 429 = true -> (maxRetries <= attempt)%nat ->
  catchBlock maxRetries attempt (Axios e) w
  = (Throw (RateLimitExceeded (maxRetries + 1)), w).
Proof.
  intros Hs Ha. unfold catchBlock. rewrite Hs.
  apply Nat.ltb_ge in Ha. rewrite Ha. reflexivity.
Qed.

Lemma has_status_distinct e (m n : Z) :
  has_status e m = true -> m <> n -> has_status e n = false.
Proof.
  unfold has_status. destruct (response e) as [r|]; [|discriminate].
  intros H Hn. apply Z.eqb_eq in H. apply Z.eqb_neq. congruence.
Qed.

(** A 403 with attempts left sleeps twice the base backoff and goes on. *)
Lemma catch_403_retry e :
  has_status e 403 = true -> (attempt < maxRetries)%nat ->
  catchBlock maxRetries attempt (Axios e) w
  = (Continue, logged w [Sleep (backoff attempt 2000)]).
Proof.
  intros Hs Ha. unfold catchBlock.
  rewrite (has_status_distinct e 403 429 Hs) by discriminate.
  rewrite Hs. apply Nat.ltb_lt in Ha. rewrite Ha. reflexivity.
Qed.

(** A 403 on the last attempt neither sleeps nor throws: it reaches
    the [break]. *)
Lemma catch_403_exhausted e :
  has_status e 403 = true -> (maxRetries <= attempt)%nat ->
  catchBlock maxRetries attempt (Axios e) w = (Break, w).
Proof.
  intros Hs Ha. unfold catchBlock.
  rewrite (has_status_distinct e 403 429 Hs) by discriminate.
  rewrite Hs. apply Nat.ltb_ge in Ha. rewrite Ha. simpl.
  unfold has_status in Hs.
  destruct (response e) as [r|]; [|discriminate].
  apply Z.eqb_eq in Hs. rewrite Hs. reflexivity.
Qed.

(** A status of 500 and above, 429 aside. *)
Lemma catch_5xx_retry e r :
  response e = Some r -> 500 <= status r -> (attempt < maxRetries)%nat ->
  catchBlock maxRetries attempt (Axios e) w
  = (Continue, logged w [Sleep (backoff attempt 1000)]).
Proof.
  intros Hr Hs Ha. unfold catchBlock, has_status. rewrite Hr.
  destruct (Z.eqb_spec (status r) 429) as [E|_]; [lia|].
  destruct (Z.eqb_spec (status r) 403) as [E|_]; [lia|].
  simpl. rewrite Z.geb_leb.
  destruct (Z.leb_spec 500 (status r)); [|lia].
  apply Nat.ltb_lt in Ha. rewrite Ha. reflexivity.
Qed.

Lemma catch_5xx_exhausted e r :
  response e = Some r -> 500 <= status r -> (maxRetries <= attempt)%nat ->
  catchBlock maxRetries attempt (Axios e) w = (Break, w).
Proof.
  intros Hr Hs Ha. unfold catchBlock, has_status. rewrite Hr.
  destruct (Z.eqb_spec (status r) 429) as [E|_]; [lia|].
  destruct (Z.eqb_spec (status r) 403) as [E|_]; [lia|].
  simpl. apply Nat.ltb_ge in Ha. rewrite Ha.
  rewrite andb_false_r. reflexivity.
Qed.

End CatchBlock.

(** C2, as the code has it.  A 429 with attempts left sleeps for
    [waitTime429] before the retry, and that wait is: with a non-empty
    [detail] that matches the pattern, the captured number times 1000,
    whatever the headers; with a non-empty [detail] that does not match,
    [2^attempt * 1000], whatever the headers; without [detail] (missing or
    empty) and with a non-empty [Retry-After], [parseInt] of the header
    times 1000; with neither, [2^attempt * 1000]. *)
Theorem wait429_precedence (maxRetries attempt : nat) (e : AxiosError) (w : World) :
  let d := response e ?. detail in
  let h := response e ?. retry_after in
  (has_status e 429 = true -> (attempt < maxRetries)%nat ->
   catchBlock maxRetries attempt (Axios e) w
   = (Continue, logged w [Sleep (waitTime429 attempt e)]))
  /\ (present d = true -> forall c, detail_match (text_of d) = Some c ->
      decimal_literal c
      /\ waitTime429 attempt e = times1000 (parseFloat c))
  /\ (present d = true -> detail_match (text_of d) = None ->
      waitTime429 attempt e = backoff attempt 1000)
  /\ (present d = false -> present h = true ->
      waitTime429 attempt e = times1000 (parseInt (text_of h)))
  /\ (present d = false -> present h = false ->
      waitTime429 attempt e = backoff attempt 1000).
Proof.
  cbv zeta. split; [apply catch_429_retry|]. unfold waitTime429.
  split; [|split; [|split]].
  - intros Hd c Hm. split.
    + apply detail_match_sound in Hm. apply Hm.
    + rewrite Hd, Hm. reflexivity.
  - intros Hd Hm. rewrite Hd, Hm. reflexivity.
  - intros Hd Hh. rewrite Hd, Hh. reflexivity.
  - intros Hd Hh. rewrite Hd, Hh. reflexivity.
Qed.

Lemma wait429_precedence_witness :
  (* the wait is what the catch block sleeps before the retry *)
  catchBlock 3 1 (Axios e429_other_detail) world0
  = (Continue, logged world0 [Sleep (of_Z 2000)])
  (* the hint of the body wins over the header *)
  /\ waitTime429 1 (e429 (Some "Rate limited, try again after 2.5 seconds")
                         (Some "5"))
     = of_Z 2500
  (* a body that says something else hides the header *)
  /\ waitTime429 1 e429_other_detail = of_Z 2000
  (* the header alone *)
  /\ waitTime429 1 (e429 None (Some "5")) = of_Z 5000
  (* neither *)
  /\ waitTime429 1 (e429 None None) = of_Z 2000.
Proof.
  split.
  { refine (eq_trans (proj1 (wait429_precedence 3 1 e429_other_detail world0)
                            eq_refl _) _); [lia | reflexivity]. }
  split.
  { refine (eq_trans
      (proj2 (proj1 (proj2 (wait429_precedence 3 1
         (e429 (Some "Rate limited, try again after 2.5 seconds") (Some "5"))
         world0))
         eq_refl "2.5" eq_refl)) _).
    reflexivity. }
  split.
  { exact (proj1 (proj2 (proj2 (wait429_precedence 3 1 e429_other_detail world0)))
                 eq_refl eq_refl). }
  split.
  { refine (eq_trans (proj1 (proj2 (proj2 (proj2
              (wait429_precedence 3 1 (e429 None (Some "5")) world0))))
              eq_refl eq_refl) _).
    reflexivity. }
  exact (proj2 (proj2 (proj2 (proj2
           (wait429_precedence 3 1 (e429 None None) world0))))
           eq_refl eq_refl).
Defined.

(** C2 as the specification words it fails: a 429 whose [detail] does not
    match the pattern waits the exponential backoff although a
    [Retry-After] header is there. *)
Lemma wait429_header_ignored_under_detail :
  ~ (forall attempt e,
        has_status e 429 = true ->
        waitTime429 attempt e = claimed_wait429 attempt e).
Proof.
  intros H. specialize (H 0%nat e429_other_detail eq_refl).
  vm_compute in H. discriminate H.
Qed.

(* ================================================================= *)
(** ** The gate and the try block *)

(** Projections of worlds and pairs, and nothing of the arithmetic. *)
Ltac world :=
  cbn [fst snd limiter ticks posts log requestCount lastRequestTime
       negb logged].

Section TryBlock.

Variable clock : nat -> Z.
Variable server : nat -> outcome.

(** The gate in front of the request: either the first call grants, or
    it refuses, the time left in the window is slept, and the gate is
    called once more, its answer being dropped. *)
Lemma acquire_cases (w : World) :
  let s := limiter w in
  let t := ticks w in
  (checkRateLimit_at (clock t) s = (true, limiter (snd (acquire clock w)))
   /\ log (snd (acquire clock w)) = log w ++ [Gate true])
  \/
  (checkRateLimit_at (clock t) s = (false, s)
   /\ limiter (snd (acquire clock w))
      = snd (checkRateLimit_at (clock (S (S t))) s)
   /\ log (snd (acquire clock w))
      = log w ++ [Gate false;
                  Sleep (of_Z (RATE_LIMIT_WINDOW
                               - (clock (S t) - lastRequestTime s)));
                  Gate (fst (checkRateLimit_at (clock (S (S t))) s))]).
Proof.
  cbv zeta. unfold acquire, checkRateLimit, bind, dateNow. world.
  destruct (checkRateLimit_at (clock (ticks w)) (limiter w)) as [[|] s1] eqn:E.
  - left. world. split; reflexivity.
  - right. apply gate_false_inv in E as (-> & _ & _).
    unfold getLastRequestTime, sleep, ret. world.
    destruct (checkRateLimit_at (clock (S (S (ticks w)))) (limiter w))
      as [b s3] eqn:E3.
    world. rewrite <- !app_assoc. repeat split; reflexivity.
Qed.

(** The gate leaves the POST counter alone and logs one passage. *)
Lemma acquire_frame (w : World) :
  posts (snd (acquire clock w)) = posts w
  /\ exists g, gating g /\ log (snd (acquire clock w)) = log w ++ g.
Proof.
  split.
  - unfold acquire, checkRateLimit, bind, dateNow. world.
    destruct (checkRateLimit_at (clock (ticks w)) (limiter w)) as [[|] s1];
      world; [reflexivity|].
    unfold getLastRequestTime, sleep, ret. world.
    destruct (checkRateLimit_at _ _) as [b s3]. reflexivity.
  - destruct (acquire_cases w) as [[_ H]|(_ & _ & H)]; eexists;
      (split; [|exact H]); constructor.
Qed.

(** An address that passes the validation is a non-empty string. *)
Lemma valid_address (address : jsval) :
  negb (truthy address) || negb (is_string address) = false ->
  exists a, address = VString a /\ a <> "".
Proof.
  destruct address as [a|b t]; simpl.
  - rewrite orb_false_r. intros H. exists a. split; [reflexivity|].
    apply negb_false_iff in H. apply negb_true_iff in H.
    now apply String.eqb_neq.
  - rewrite orb_true_r. discriminate.
Qed.

Lemma valid_string (a : string) :
  a <> "" -> negb (truthy (VString a)) || negb (is_string (VString a)) = false.
Proof.
  intros H. simpl. apply String.eqb_neq in H. rewrite H. reflexivity.
Qed.

(** An invalid address throws before anything is touched. *)
Lemma tryBlock_invalid (address : jsval) (w : World) :
  negb (truthy address) || negb (is_string address) = true ->
  tryBlock clock server address w = (inl InvalidAddress, w).
Proof. intros H. unfold tryBlock. rewrite H. reflexivity. Qed.

(** With a valid address the try block passes the gate, issues exactly
    one POST and ends as that POST dictates. *)
Lemma tryBlock_valid (a : string) (w : World) :
  a <> "" ->
  let w' := snd (tryBlock clock server (VString a) w) in
  fst (tryBlock clock server (VString a) w) = settle a (server (posts w))
  /\ posts w' = S (posts w)
  /\ limiter w' = limiter (snd (acquire clock w))
  /\ exists g, gating g /\ log w' = log w ++ g ++ [Post a].
Proof.
  intros Ha. cbv zeta. unfold tryBlock. rewrite (valid_string a Ha).
  unfold bind. destruct (acquire clock w) as [[] w1] eqn:E.
  pose proof (acquire_frame w) as [Hp (g & Hg & Hl)].
  rewrite E in Hp, Hl. cbn [snd] in Hp, Hl.
  unfold axiosPost, ret. world. rewrite Hp. repeat split.
  exists g. split; [assumption|]. rewrite Hl, app_assoc. reflexivity.
Qed.

End TryBlock.

(* ================================================================= *)
(** ** The retry loop *)

Section Loop.

Variable clock : nat -> Z.
Variable server : nat -> outcome.

(** The three ways out of the catch block.  It continues only with
    attempts left and on a retried class, after exactly one sleep; it
    throws only on a 429 at the last attempt. *)
Lemma catch_cases (n k : nat) (err : caught) (w : World) :
  (exists ms, catchBlock n k err w = (Continue, logged w [Sleep ms])
              /\ (k < n)%nat /\ retryable err = true)
  \/ (catchBlock n k err w = (Break, w)
      /\ ((n <= k)%nat \/ retryable err = false))
  \/ (catchBlock n k err w = (Throw (RateLimitExceeded (n + 1)), w)
      /\ (n <= k)%nat
      /\ exists e, err = Axios e /\ has_status e 429 = true).
Proof.
  destruct err as [| p | e | t];
    try (right; left; split; [reflexivity | right; reflexivity]).
  unfold catchBlock, has_status, retryable.
  destruct (response e) as [r|] eqn:Er.
  - destruct (Z.eqb_spec (status r) 429) as [E9|N9].
    + destruct (Nat.ltb_spec k n) as [Hk|Hk].
      * left. eexists. split; [reflexivity|]. split; [assumption|reflexivity].
      * right; right. split; [reflexivity|]. split; [assumption|].
        exists e. split; [reflexivity|]. unfold has_status. rewrite Er.
        now apply Z.eqb_eq.
    + destruct (Z.eqb_spec (status r) 403) as [E3|N3]; cbn [andb orb].
      * destruct (Nat.ltb_spec k n) as [Hk|Hk].
        -- left. eexists. split; [reflexivity|]. split; [assumption|reflexivity].
        -- right; left. rewrite Z.geb_leb.
           destruct (Z.leb_spec 500 (status r)); [lia|]. cbn [andb].
           split; [reflexivity | left; assumption].
      * rewrite Z.geb_leb. destruct (Z.leb_spec 500 (status r)); cbn [andb].
        -- destruct (Nat.ltb_spec k n) as [Hk|Hk].
           ++ left. eexists. split; [reflexivity|]. split; [assumption|reflexivity].
           ++ right; left. split; [reflexivity | left; assumption].
        -- right; left. split; [reflexivity | right; reflexivity].
  - cbn [andb]. destruct (request e).
    + destruct (Nat.ltb_spec k n) as [Hk|Hk].
      * left. eexists. split; [reflexivity|]. split; [assumption|reflexivity].
      * right; left. split; [reflexivity | left; assumption].
    + cbn [orb].
      destruct (present (code e) && (text_of (code e) =? "ECONNABORTED")%string).
      * destruct (Nat.ltb_spec k n) as [Hk|Hk].
        -- left. eexists. split; [reflexivity|]. split; [assumption|reflexivity].
        -- right; left. split; [reflexivity | left; assumption].
      * right; left. split; [reflexivity | right; reflexivity].
Qed.

(** How a call on a valid address ends, whatever the clock, the
    limiter and the server do: some iteration [j] is the last, one POST
    was issued per iteration, and the result is explained by the end of
    the last POST. *)
Lemma forLoop_outcome (a : string) (n : nat) :
  a <> "" ->
  forall fuel k le w,
    (k <= n)%nat -> (n - k < fuel)%nat ->
    exists r w' j,
      (k <= j <= n)%nat
      /\ forLoop clock server (VString a) n fuel k le w = (Some r, w')
      /\ posts w' = (posts w + (j - k) + 1)%nat
      /\ ends_with a n j (server (posts w + (j - k))%nat) r.
Proof.
  intros Ha. induction fuel as [|fuel IH]; intros k le w Hk Hf; [lia|].
  cbn [forLoop]. destruct (Nat.leb_spec k n) as [_|]; [|lia].
  unfold bind.
  destruct (tryBlock_valid clock server a w Ha) as (Hr & Hp & _ & _).
  destruct (tryBlock clock server (VString a) w) as [r w1].
  cbn [fst snd] in Hr, Hp. subst r.
  destruct (settle a (server (posts w))) as [err|v] eqn:Es.
  - destruct (catch_cases n k err w1)
      as [(ms & -> & Hlt & Hre) | [(-> & Hwhy) | (-> & Hge & e & -> & H9)]].
    + destruct (IH (S k) (Some err) (logged w1 [Sleep ms]))
        as (r & w' & j & Hj & Hrun & Hposts & Hends); [lia | lia |].
      exists r, w', j. split; [lia|]. split; [exact Hrun|].
      cbn [posts logged] in Hposts, Hends. rewrite Hp in Hposts, Hends.
      split; [lia|].
      replace (posts w + (j - k))%nat with (S (posts w) + (j - S k))%nat by lia.
      exact Hends.
    + exists (afterLoop (VString a) (Some err)), w1, k.
      split; [lia|]. split; [reflexivity|]. split; [lia|].
      replace (posts w + (k - k))%nat with (posts w) by lia.
      cbn. split; [reflexivity|]. exists err. repeat split; [assumption|].
      destruct Hwhy as [Hge|Hnr]; [left; lia | right; assumption].
    + exists (Rejected (RateLimitExceeded (n + 1))), w1, k.
      split; [lia|]. split; [reflexivity|]. split; [lia|].
      replace (posts w + (k - k))%nat with (posts w) by lia.
      cbn. split; [reflexivity|]. split; [lia|].
      exists e. split; [|assumption].
      destruct (server (posts w)) as [b|e'|t]; cbn in Es.
      * unfold unwrap in Es.
        repeat match type of Es with
               | match ?x with _ => _ end = _ => destruct x
               | (if ?x then _ else _) = _ => destruct x
               end; discriminate.
      * congruence.
      * discriminate.
  - exists (Resolved v), w1, k.
    split; [lia|]. split; [reflexivity|]. split; [lia|].
    replace (posts w + (k - k))%nat with (posts w) by lia.
    exact Es.
Qed.

End Loop.

Section Retries.

Variable clock : nat -> Z.
Variable server : nat -> outcome.
Variables (a : string) (n : nat).
Hypothesis a_valid : a <> "".

Let loop := forLoop clock server (VString a) n.
Let attempt_in w := tryBlock clock server (VString a) w.

(** One iteration whose POST fails with [err] and whose catch block
    continues after sleeping [ms]. *)
Lemma forLoop_continue fuel k le w err ms :
  (k <= n)%nat ->
  settle a (server (posts w)) = inl err ->
  (forall w1, catchBlock n k err w1 = (Continue, logged w1 [Sleep ms])) ->
  loop (S fuel) k le w
  = loop fuel (S k) (Some err) (logged (snd (attempt_in w)) [Sleep ms]).
Proof.
  intros Hk Hs Hc. unfold loop, attempt_in. cbn [forLoop].
  destruct (Nat.leb_spec k n) as [_|]; [|lia].
  unfold bind.
  destruct (tryBlock_valid clock server a w a_valid) as (Hr & _).
  destruct (tryBlock clock server (VString a) w) as [r w1].
  cbn [fst snd] in *. rewrite Hr, Hs, Hc. reflexivity.
Qed.

(** One iteration whose POST fails with [err] and whose catch block
    reaches the [break]: the final error wraps [err]. *)
Lemma forLoop_break fuel k le w err :
  (k <= n)%nat ->
  settle a (server (posts w)) = inl err ->
  (forall w1, catchBlock n k err w1 = (Break, w1)) ->
  loop (S fuel) k le w
  = (Some (Rejected (FetchFailed (VString a) (Some err))), snd (attempt_in w)).
Proof.
  intros Hk Hs Hc. unfold loop, attempt_in. cbn [forLoop].
  destruct (Nat.leb_spec k n) as [_|]; [|lia].
  unfold bind.
  destruct (tryBlock_valid clock server a w a_valid) as (Hr & _).
  destruct (tryBlock clock server (VString a) w) as [r w1].
  cbn [fst snd] in *. rewrite Hr, Hs, Hc. reflexivity.
Qed.

(** A server that fails every attempt with an error of a class [P]
    that is retried after [wait k] and gives up at the last attempt:
    the call goes through all the rounds and wraps the last error. *)
Lemma forLoop_all_retried (P : AxiosError -> Prop) (wait : nat -> num) :
  (forall e k w, P e -> (k < n)%nat ->
     catchBlock n k (Axios e) w = (Continue, logged w [Sleep (wait k)])) ->
  (forall e w, P e -> catchBlock n n (Axios e) w = (Break, w)) ->
  forall fuel k le w,
    (k <= n)%nat -> (n - k < fuel)%nat ->
    (forall i, (i <= n - k)%nat ->
       exists e, server (posts w + i)%nat = Rejects e /\ P e) ->
    exists e l w',
      server (posts w + (n - k))%nat = Rejects e
      /\ loop fuel k le w
         = (Some (Rejected (FetchFailed (VString a) (Some (Axios e)))), w')
      /\ posts w' = (posts w + (n - k) + 1)%nat
      /\ log w' = log w ++ l
      /\ rounds a wait k n l.
Proof.
  intros Hretry Hlast.
  induction fuel as [|fuel IH]; intros k le w Hk Hf Hsrv; [lia|].
  destruct (Hsrv 0%nat ltac:(lia)) as (e0 & He0 & HP0).
  rewrite Nat.add_0_r in He0.
  assert (Hs : settle a (server (posts w)) = inl (Axios e0))
    by (rewrite He0; reflexivity).
  destruct (tryBlock_valid clock server a w a_valid)
    as (_ & Hp & _ & g & Hg & Hl).
  fold (attempt_in w) in Hp, Hl.
  destruct (Nat.eq_dec k n) as [->|Hne].
  - exists e0, (g ++ [Post a]), (snd (attempt_in w)).
    rewrite Nat.sub_diag, Nat.add_0_r.
    split; [exact He0|]. split.
    + apply forLoop_break; [lia | exact Hs |]. intros w1. now apply Hlast.
    + split; [lia|]. split; [exact Hl|]. now constructor.
  - rewrite (forLoop_continue fuel k le w (Axios e0) (wait k));
      [| lia | exact Hs | intros w1; apply Hretry; [exact HP0 | lia]].
    destruct (IH (S k) (Some (Axios e0)) (logged (snd (attempt_in w)) [Sleep (wait k)]))
      as (e & l & w' & He & Hrun & Hposts & Hlog & Hrounds);
      [lia | lia | |].
    { intros i Hi. cbn [posts logged]. rewrite Hp.
      destruct (Hsrv (S i) ltac:(lia)) as (e & He & HP).
      exists e. split; [|exact HP].
      rewrite <- He. f_equal. lia. }
    cbn [posts log logged] in He, Hposts, Hlog. rewrite Hp in He, Hposts.
    exists e, (g ++ [Post a; Sleep (wait k)] ++ l), w'.
    split. { rewrite <- He. f_equal. lia. }
    split; [exact Hrun|]. split; [lia|]. split.
    + rewrite Hlog, Hl. rewrite <- !app_assoc. reflexivity.
    + apply rounds_retry; [lia | assumption | assumption].
Qed.

Lemma rounds_last_inv wait l :
  rounds a wait n n l -> exists g, gating g /\ l = g ++ [Post a].
Proof.
  intros H. inversion H; subst.
  - eexists; split; [eassumption | reflexivity].
  - lia.
Qed.

Lemma rounds_retry_inv wait k l :
  (k < n)%nat -> rounds a wait k n l ->
  exists g l', gating g /\ rounds a wait (S k) n l'
               /\ l = g ++ [Post a; Sleep (wait k)] ++ l'.
Proof.
  intros Hk H. inversion H; subst.
  - lia.
  - eexists _, _. split; [eassumption|]. split; [eassumption | reflexivity].
Qed.

End Retries.

(* ================================================================= *)
(** ** Whole calls of [fetchFirstMintedArtwork] *)

Lemma fuel_two (n : nat) : (n + 2)%nat = S (S n).
Proof. lia. Qed.

(** An address that fails the validation: iteration 0 throws, the catch
    block reaches the [break], the final error is thrown; nothing else
    happens. *)
Lemma fetch_invalid clock server (address : jsval) (maxRetries : nat) (w : World) :
  negb (truthy address) || negb (is_string address) = true ->
  fetchFirstMintedArtwork clock server address maxRetries w
  = (Some (Rejected (FetchFailed address (Some InvalidAddress))), w).
Proof.
  intros Hbad.
  unfold fetchFirstMintedArtwork. rewrite fuel_two. cbn [forLoop Nat.leb].
  unfold bind. rewrite (tryBlock_invalid clock server address w Hbad).
  reflexivity.
Qed.

(** C5.  An empty string, or anything that is not a string, as address:
    the call rejects at iteration 0 with the final error wrapping
    "Invalid address provided", and the world is untouched: no reading of
    the clock, no call of the gate, no sleep, no POST, the two counters as
    they were. *)
Theorem invalid_address_fails_fast
        (clock : nat -> Z) (server : nat -> outcome)
        (address : jsval) (maxRetries : nat) (w : World) :
  address = VString "" \/ is_string address = false ->
  fetchFirstMintedArtwork clock server address maxRetries w
  = (Some (Rejected (FetchFailed address (Some InvalidAddress))), w).
Proof.
  intros H. apply fetch_invalid.
  destruct H as [->|H]; [reflexivity|]. rewrite H. apply orb_true_r.
Qed.

Lemma invalid_address_fails_fast_witness :
  let w := {| limiter := {| requestCount := 7; lastRequestTime := 1000 |};
              ticks := 4; posts := 2; log := [Gate true; Post "0xabc"] |} in
  fetchFirstMintedArtwork (fun _ => 5000) (fun _ => Throws "unreachable")
                          (VString "") 3 w
  = (Some (Rejected (FetchFailed (VString "") (Some InvalidAddress))), w)
  /\ fetchFirstMintedArtwork (fun _ => 5000) (fun _ => Throws "unreachable")
                             (VOther true "42") 3 w
     = (Some (Rejected (FetchFailed (VOther true "42") (Some InvalidAddress))), w).
Proof.
  split.
  - apply invalid_address_fails_fast. left. reflexivity.
  - apply invalid_address_fails_fast. right. reflexivity.
Defined.

(** The unwrapping of a complete envelope with a non-empty leaf. *)
Lemma unwrap_leaf (a u : string) others :
  u <> "" ->
  unwrap a (Some (envelope_with_leaf (Some u) others))
  = inr (Some {| downloadableUri := u; address := a |}).
Proof.
  intros Hu. unfold unwrap, envelope_with_leaf, chain, present.
  cbn [Envelope.data Envelope.profile Envelope.collectedCollectionsOrTokens
       Envelope.edges Envelope.node Envelope.media Envelope.previewImage
       Envelope.previewImage' Envelope.downloadableUri text_of].
  apply String.eqb_neq in Hu. rewrite Hu. reflexivity.
Qed.

(** A call on a valid address whose first POST is fulfilled. *)
Lemma fetch_fulfilled clock server (a : string) (maxRetries : nat) (w : World) body v :
  a <> "" ->
  server (posts w) = Fulfilled body ->
  unwrap a body = inr v ->
  fst (fetchFirstMintedArtwork clock server (VString a) maxRetries w)
  = Some (Resolved v)
  /\ posts (snd (fetchFirstMintedArtwork clock server (VString a) maxRetries w))
     = S (posts w).
Proof.
  intros Ha Hs Hu.
  unfold fetchFirstMintedArtwork. rewrite fuel_two. cbn [forLoop Nat.leb].
  unfold bind.
  destruct (tryBlock_valid clock server a w Ha) as (Hr & Hp & _).
  destruct (tryBlock clock server (VString a) w) as [r w1].
  cbn [fst snd] in *. rewrite Hr, Hs. cbn [settle]. rewrite Hu.
  split; [reflexivity | exact Hp].
Qed.

(** C6.  A valid address and a POST fulfilled with an envelope complete
    down to the first edge's leaf ["ipfs://abc"]: the call issues that one
    POST and resolves with exactly that URI and the address as given. *)
Theorem well_formed_envelope_result
        (clock : nat -> Z) (server : nat -> outcome)
        (a : string) (maxRetries : nat) (w : World) others :
  a <> "" ->
  server (posts w)
  = Fulfilled (Some (envelope_with_leaf (Some "ipfs://abc") others)) ->
  fst (fetchFirstMintedArtwork clock server (VString a) maxRetries w)
  = Some (Resolved (Some {| downloadableUri := "ipfs://abc"; address := a |}))
  /\ posts (snd (fetchFirstMintedArtwork clock server (VString a) maxRetries w))
     = S (posts w).
Proof.
  intros Ha Hs.
  apply (fetch_fulfilled clock server a maxRetries w _ _ Ha Hs).
  apply unwrap_leaf. discriminate.
Qed.

Lemma well_formed_envelope_result_witness :
  let w := {| limiter := initialState; ticks := 0; posts := 0; log := [] |} in
  let server := fun _ : nat =>
    Fulfilled (Some (envelope_with_leaf (Some "ipfs://abc") [])) in
  fst (fetchFirstMintedArtwork (fun _ => 1700000000000) server
                               (VString "0x1234") DEFAULT_MAX_RETRIES w)
  = Some (Resolved (Some {| downloadableUri := "ipfs://abc";
                            address := "0x1234" |})).
Proof.
  cbv zeta.
  refine (proj1 (well_formed_envelope_result _ _ "0x1234" _ _ [] _ eq_refl)).
  discriminate.
Defined.

(** C3.  Default retry bound 3, a valid address, and a server answering
    500 to each of the four POSTs: the call issues exactly four POSTs,
    sleeps 1000, 2000 and 4000 ms after the first three (each POST being
    preceded by one passage through the gate), and rejects with the final
    error, which wraps the error of the fourth POST and whose message
    holds the address. *)
Theorem always_500_four_attempts
        (clock : nat -> Z) (server : nat -> outcome) (a : string) (w : World) :
  a <> "" ->
  (forall i, (i < 4)%nat ->
     exists e r, server (posts w + i)%nat = Rejects e
                 /\ response e = Some r /\ status r = 500) ->
  exists e3 g0 g1 g2 g3 w',
    server (posts w + 3)%nat = Rejects e3
    /\ fetchFirstMintedArtwork clock server (VString a) 3 w
       = (Some (Rejected (FetchFailed (VString a) (Some (Axios e3)))), w')
    /\ posts w' = (posts w + 4)%nat
    /\ gating g0 /\ gating g1 /\ gating g2 /\ gating g3
    /\ log w' = log w ++ g0 ++ [Post a; Sleep (of_Z 1000)]
                      ++ g1 ++ [Post a; Sleep (of_Z 2000)]
                      ++ g2 ++ [Post a; Sleep (of_Z 4000)]
                      ++ g3 ++ [Post a]
    /\ error_message (FetchFailed (VString a) (Some (Axios e3)))
       = ("Failed to fetch first minted artwork for address "
            ++ a ++ ": " ++ shown e3)%string.
Proof.
  intros Ha Hsrv.
  set (P := fun e => exists r, response e = Some r /\ status r = 500).
  destruct (forLoop_all_retried clock server a 3 Ha P (fun k => backoff k 1000))
    with (fuel := 5%nat) (k := 0%nat) (le := @None caught) (w := w)
    as (e3 & l & w' & He3 & Hrun & Hposts & Hlog & Hrounds).
  - intros e k w0 (r & Hr & Hs) Hk.
    apply (catch_5xx_retry 3 k w0 e r Hr); [lia | exact Hk].
  - intros e w0 (r & Hr & Hs).
    apply (catch_5xx_exhausted 3 3 w0 e r Hr); lia.
  - lia.
  - lia.
  - intros i Hi. destruct (Hsrv i ltac:(lia)) as (e & r & He & Hr & Hs).
    exists e. split; [exact He|]. exists r. now split.
  - apply rounds_retry_inv in Hrounds as (g0 & l1 & Hg0 & Hrounds & ->); [|lia].
    apply rounds_retry_inv in Hrounds as (g1 & l2 & Hg1 & Hrounds & ->); [|lia].
    apply rounds_retry_inv in Hrounds as (g2 & l3 & Hg2 & Hrounds & ->); [|lia].
    apply rounds_last_inv in Hrounds as (g3 & Hg3 & ->).
    exists e3, g0, g1, g2, g3, w'.
    split; [exact He3|]. split; [exact Hrun|]. split; [lia|].
    do 4 (split; [assumption|]).
    split; [exact Hlog | reflexivity].
Qed.

Lemma always_500_four_attempts_witness :
  exists e3 g0 g1 g2 g3 w',
    always_status 500 3%nat = Rejects e3
    /\ fetchFirstMintedArtwork (fun _ => 1700000000000) (always_status 500)
                               (VString "0x1234") 3 world0
       = (Some (Rejected (FetchFailed (VString "0x1234") (Some (Axios e3)))), w')
    /\ posts w' = 4%nat
    /\ gating g0 /\ gating g1 /\ gating g2 /\ gating g3
    /\ log w' = [] ++ g0 ++ [Post "0x1234"; Sleep (of_Z 1000)]
                   ++ g1 ++ [Post "0x1234"; Sleep (of_Z 2000)]
                   ++ g2 ++ [Post "0x1234"; Sleep (of_Z 4000)]
                   ++ g3 ++ [Post "0x1234"]
    /\ error_message (FetchFailed (VString "0x1234") (Some (Axios e3)))
       = ("Failed to fetch first minted artwork for address "
            ++ "0x1234" ++ ": " ++ shown e3)%string.
Proof.
  apply (always_500_four_attempts (fun _ => 1700000000000) (always_status 500)
                                  "0x1234" world0).
  - discriminate.
  - intros i _. eexists _, _. split; [reflexivity|]. split; reflexivity.
Defined.

(** C7.  A 403 at iteration [attempt] with attempts left sleeps
    [2^attempt * 2000] ms and the loop goes on with the next iteration; a
    403 at the last iteration sleeps nothing and throws nothing of its own:
    the loop is left and the final error wraps that 403.  Against a server
    that always answers 403 the call therefore goes through all
    [maxRetries + 1] rounds with these waits and ends on the final error. *)
Theorem forbidden_backoff_then_fall_through
        (clock : nat -> Z) (server : nat -> outcome)
        (a : string) (maxRetries : nat) :
  a <> "" ->
  (forall e attempt w,
     has_status e 403 = true -> (attempt < maxRetries)%nat ->
     catchBlock maxRetries attempt (Axios e) w
     = (Continue, logged w [Sleep (of_Z (2 ^ Z.of_nat attempt * 2000))]))
  /\ (forall e attempt w,
        has_status e 403 = true -> (maxRetries <= attempt)%nat ->
        catchBlock maxRetries attempt (Axios e) w = (Break, w))
  /\ (forall e fuel attempt le w,
        server (posts w) = Rejects e -> has_status e 403 = true ->
        (attempt < maxRetries)%nat ->
        forLoop clock server (VString a) maxRetries (S fuel) attempt le w
        = forLoop clock server (VString a) maxRetries fuel (S attempt)
                  (Some (Axios e))
                  (logged (snd (tryBlock clock server (VString a) w))
                          [Sleep (of_Z (2 ^ Z.of_nat attempt * 2000))]))
  /\ (forall e fuel le w,
        server (posts w) = Rejects e -> has_status e 403 = true ->
        forLoop clock server (VString a) maxRetries (S fuel) maxRetries le w
        = (Some (Rejected (FetchFailed (VString a) (Some (Axios e)))),
           snd (tryBlock clock server (VString a) w)))
  /\ (forall w,
        (forall i, (i <= maxRetries)%nat ->
           exists e, server (posts w + i)%nat = Rejects e
                     /\ has_status e 403 = true) ->
        exists e l w',
          server (posts w + maxRetries)%nat = Rejects e
          /\ fetchFirstMintedArtwork clock server (VString a) maxRetries w
             = (Some (Rejected (FetchFailed (VString a) (Some (Axios e)))), w')
          /\ posts w' = (posts w + maxRetries + 1)%nat
          /\ log w' = log w ++ l
          /\ rounds a (fun k => backoff k 2000) 0 maxRetries l).
Proof.
  intros Ha.
  split; [intros e k w Hs Hk; now apply catch_403_retry|].
  split; [intros e k w Hs Hk; now apply catch_403_exhausted|].
  split.
  { intros e fuel k le w Hsrv Hs Hk.
    apply forLoop_continue; [exact Ha | lia | now rewrite Hsrv |].
    intros w1. now apply catch_403_retry. }
  split.
  { intros e fuel le w Hsrv Hs.
    apply forLoop_break; [exact Ha | lia | now rewrite Hsrv |].
    intros w1. now apply catch_403_exhausted. }
  intros w Hsrv.
  destruct (forLoop_all_retried clock server a maxRetries Ha
              (fun e => has_status e 403 = true) (fun k => backoff k 2000))
    with (fuel := (maxRetries + 2)%nat) (k := 0%nat) (le := @None caught) (w := w)
    as (e & l & w' & He & Hrun & Hposts & Hlog & Hrounds).
  - intros e k w0 Hs Hk. now apply catch_403_retry.
  - intros e w0 Hs. now apply catch_403_exhausted.
  - lia.
  - lia.
  - intros i Hi. apply Hsrv. lia.
  - rewrite Nat.sub_0_r in He, Hposts.
    exists e, l, w'. repeat (split; [assumption|]). assumption.
Qed.

Lemma forbidden_backoff_then_fall_through_witness :
  let e := {| response := Some {| status := 403; detail := None;
                                  retry_after := None |};
              request := true; code := None;
              shown := "AxiosError: Request failed" |} in
  catchBlock 3 2 (Axios e) world0
  = (Continue, logged world0 [Sleep (of_Z 8000)])
  /\ catchBlock 3 3 (Axios e) world0 = (Break, world0)
  /\ exists l w',
       fetchFirstMintedArtwork (fun _ => 1700000000000) (always_status 403)
                               (VString "0x1234") 1 world0
       = (Some (Rejected (FetchFailed (VString "0x1234") (Some (Axios e)))), w')
       /\ posts w' = 2%nat
       /\ log w' = l
       /\ rounds "0x1234" (fun k => backoff k 2000) 0 1 l.
Proof.
  cbv zeta.
  assert (Ha : "0x1234" <> "") by discriminate.
  split.
  { apply (proj1 (forbidden_backoff_then_fall_through
                    (fun _ => 0) (always_status 403) "0x1234" 3 Ha));
      [reflexivity | lia]. }
  split.
  { apply (proj1 (proj2 (forbidden_backoff_then_fall_through
                           (fun _ => 0) (always_status 403) "0x1234" 3 Ha)));
      [reflexivity | lia]. }
  destruct (proj2 (proj2 (proj2 (proj2 (forbidden_backoff_then_fall_through
              (fun _ => 1700000000000) (always_status 403) "0x1234" 1 Ha))))
              world0) as (e & l & w' & He & Hrun & Hposts & Hlog & Hrounds).
  { intros i _. eexists. split; reflexivity. }
  injection He as <-.
  exists l, w'. repeat (split; [assumption|]). assumption.
Defined.

(** What the unwrapping returns as an artwork has a non-empty URI and the
    address it was given. *)
Lemma unwrap_some (a : string) body art :
  unwrap a body = inr (Some art) ->
  downloadableUri art <> "" /\ address art = a.
Proof.
  unfold unwrap. intros H.
  destruct (body ?. Envelope.data ?. Envelope.profile
                 ?. Envelope.collectedCollectionsOrTokens ?. Envelope.edges)
    as [[|[fe|] rest]|]; try discriminate.
  destruct (Envelope.node fe) as [nd|]; [|discriminate].
  destruct (Envelope.media nd ?. Envelope.previewImage ?. Envelope.previewImage'
                           ?. Envelope.downloadableUri) as [u|];
    cbn [present text_of] in H; [|discriminate].
  destruct (String.eqb_spec u "") as [|Hu]; cbn [negb] in H; [discriminate|].
  injection H as <-. split; [exact Hu | reflexivity].
Qed.

(** C9.  An artwork the call resolves with never has the empty string as
    its URI; in particular an envelope whose first edge carries the empty
    string at the leaf resolves with [null]. *)
Theorem resolved_uri_nonempty
        (clock : nat -> Z) (server : nat -> outcome)
        (address : jsval) (maxRetries : nat) (w : World) :
  (forall art,
     fst (fetchFirstMintedArtwork clock server address maxRetries w)
     = Some (Resolved (Some art)) ->
     downloadableUri art <> "")
  /\ (forall a others,
        address = VString a -> a <> "" ->
        server (posts w)
        = Fulfilled (Some (envelope_with_leaf (Some "") others)) ->
        fst (fetchFirstMintedArtwork clock server address maxRetries w)
        = Some (Resolved None)).
Proof.
  split.
  - intros art H.
    destruct (negb (truthy address) || negb (is_string address)) eqn:Hv.
    + rewrite (fetch_invalid clock server address maxRetries w Hv) in H.
      discriminate.
    + apply valid_address in Hv as (a & -> & Ha).
      destruct (forLoop_outcome clock server a maxRetries Ha
                  (maxRetries + 2) 0 None w)
        as (r & w' & j & _ & Hrun & _ & Hends); [lia | lia |].
      unfold fetchFirstMintedArtwork in H. rewrite Hrun in H.
      injection H as ->. cbn [ends_with] in Hends.
      destruct (server (posts w + (j - 0))%nat) as [body|e|t];
        cbn [settle] in Hends; try discriminate.
      now apply unwrap_some in Hends.
  - intros a others -> Ha Hs.
    now apply (fetch_fulfilled clock server a maxRetries w _ None Ha Hs).
Qed.

Lemma resolved_uri_nonempty_witness :
  downloadableUri {| downloadableUri := "ipfs://abc"; address := "0x1234" |} <> ""
  /\ fst (fetchFirstMintedArtwork
            (fun _ => 1700000000000)
            (fun _ => Fulfilled (Some (envelope_with_leaf (Some "") [])))
            (VString "0x1234") DEFAULT_MAX_RETRIES world0)
     = Some (Resolved None).
Proof.
  split.
  - apply (proj1 (resolved_uri_nonempty
                    (fun _ => 1700000000000)
                    (fun _ => Fulfilled (Some (envelope_with_leaf (Some "ipfs://abc") [])))
                    (VString "0x1234") DEFAULT_MAX_RETRIES world0)).
    vm_compute. reflexivity.
  - apply (proj2 (resolved_uri_nonempty
                    (fun _ => 1700000000000)
                    (fun _ => Fulfilled (Some (envelope_with_leaf (Some "") [])))
                    (VString "0x1234") DEFAULT_MAX_RETRIES world0)
                 "0x1234" []); [reflexivity | discriminate | reflexivity].
Defined.

(* ================================================================= *)
(** ** The quota never decides how a call settles *)

Section Quota.

Variable server : nat -> outcome.

(** What the catch block decides depends on the error and the attempt,
    not on the world, and it issues no POST. *)
Lemma catch_indep (n k : nat) (err : caught) :
  exists act, forall w,
    fst (catchBlock n k err w) = act
    /\ posts (snd (catchBlock n k err w)) = posts w.
Proof.
  destruct err as [| p | e | t];
    try (exists Break; intros w; split; reflexivity).
  unfold catchBlock, has_status.
  destruct (response e) as [r|];
    repeat match goal with
           | |- context [if ?c then _ else _] => destruct c
           end;
    first [ exists Continue; intros w; split; reflexivity
          | exists Break; intros w; split; reflexivity
          | exists (Throw (RateLimitExceeded (n + 1))); intros w;
            split; reflexivity ].
Qed.

(** Two runs of the loop against the same server, from worlds that
    agree on the number of POSTs issued, settle alike, whatever their
    clocks and limiter states. *)
Lemma forLoop_same_result (a : string) (n : nat) :
  a <> "" ->
  forall fuel k le c1 c2 w1 w2,
    posts w1 = posts w2 ->
    fst (forLoop c1 server (VString a) n fuel k le w1)
    = fst (forLoop c2 server (VString a) n fuel k le w2).
Proof.
  intros Ha. induction fuel as [|fuel IH]; intros k le c1 c2 w1 w2 Hp;
    [reflexivity|].
  cbn [forLoop]. destruct (k <=? n)%nat; [|reflexivity].
  unfold bind.
  destruct (tryBlock_valid c1 server a w1 Ha) as (Hr1 & Hp1 & _).
  destruct (tryBlock_valid c2 server a w2 Ha) as (Hr2 & Hp2 & _).
  destruct (tryBlock c1 server (VString a) w1) as [r1 v1].
  destruct (tryBlock c2 server (VString a) w2) as [r2 v2].
  cbn [fst snd] in *. rewrite Hr1, Hr2, Hp.
  destruct (settle a (server (posts w2))) as [err|v]; [|reflexivity].
  destruct (catch_indep n k err) as (act & Hact).
  destruct (Hact v1) as [Ha1 Hq1]. destruct (Hact v2) as [Ha2 Hq2].
  destruct (catchBlock n k err v1) as [a1 u1].
  destruct (catchBlock n k err v2) as [a2 u2].
  cbn [fst snd] in *. subst a1 a2.
  destruct act; try reflexivity.
  apply IH. congruence.
Qed.

Lemma fetch_same_result (address : jsval) (n : nat) c1 c2 w1 w2 :
  posts w1 = posts w2 ->
  fst (fetchFirstMintedArtwork c1 server address n w1)
  = fst (fetchFirstMintedArtwork c2 server address n w2).
Proof.
  intros Hp.
  destruct (negb (truthy address) || negb (is_string address)) eqn:Hv.
  - now rewrite !fetch_invalid.
  - apply valid_address in Hv as (a & -> & Ha).
    now apply forLoop_same_result.
Qed.

(** The log of a try block on a valid address whose gate refuses. *)
Lemma tryBlock_refused clock (a : string) (w : World) :
  a <> "" ->
  fst (checkRateLimit clock w) = false ->
  log (snd (tryBlock clock server (VString a) w))
  = log w ++ [Gate false;
              Sleep (of_Z (RATE_LIMIT_WINDOW
                           - (clock (S (ticks w))
                              - lastRequestTime (limiter w))));
              Gate (fst (checkRateLimit_at (clock (S (S (ticks w))))
                                           (limiter w)));
              Post a].
Proof.
  intros Ha Hg.
  assert (Hat : fst (checkRateLimit_at (clock (ticks w)) (limiter w)) = false).
  { revert Hg. unfold checkRateLimit, bind, dateNow. world.
    destruct (checkRateLimit_at (clock (ticks w)) (limiter w)). auto. }
  unfold tryBlock. rewrite (valid_string a Ha). unfold bind.
  destruct (acquire_cases clock w) as [[Hc _]|(_ & _ & Hl)].
  - rewrite Hc in Hat. discriminate.
  - destruct (acquire clock w) as [[] w1]. cbn [snd] in Hl.
    unfold axiosPost, ret. world. rewrite Hl, <- app_assoc. reflexivity.
Qed.

End Quota.

(** C8.  A call always settles.  When it rejects, either the address was
    invalid, or all [maxRetries + 1] attempts were issued, or the error
    wrapped by the final error is outside the retried classes.  Which way
    it settles is the same under every clock and every state of the rate
    limiter, so a used-up quota never makes it reject.  When the gate
    refuses, the try block sleeps [60000 - (now - lastRequestTime)], calls
    the gate once more and issues the POST whatever that second call
    answers. *)
Theorem rejections_and_quota
        (clock : nat -> Z) (server : nat -> outcome)
        (address : jsval) (maxRetries : nat) (w : World) :
  let run := fetchFirstMintedArtwork clock server address maxRetries w in
  (exists r, fst run = Some r)
  /\ (forall e,
        fst run = Some (Rejected e) ->
        (negb (truthy address) || negb (is_string address) = true
         /\ e = FetchFailed address (Some InvalidAddress))
        \/ posts (snd run) = (posts w + maxRetries + 1)%nat
        \/ exists err, e = FetchFailed address (Some err)
                       /\ retryable err = false)
  /\ (forall clock' w',
        posts w' = posts w ->
        fst (fetchFirstMintedArtwork clock' server address maxRetries w')
        = fst run)
  /\ (forall a w0,
        address = VString a -> a <> "" ->
        fst (checkRateLimit clock w0) = false ->
        log (snd (tryBlock clock server address w0))
        = log w0 ++ [Gate false;
                     Sleep (of_Z (60000 - (clock (S (ticks w0))
                                           - lastRequestTime (limiter w0))));
                     Gate (fst (checkRateLimit_at (clock (S (S (ticks w0))))
                                                  (limiter w0)));
                     Post a]
        /\ posts (snd (tryBlock clock server address w0)) = S (posts w0)).
Proof.
  cbv zeta.
  assert (Hsettle :
    (exists r, fst (fetchFirstMintedArtwork clock server address maxRetries w)
               = Some r)
    /\ forall e,
        fst (fetchFirstMintedArtwork clock server address maxRetries w)
        = Some (Rejected e) ->
        (negb (truthy address) || negb (is_string address) = true
         /\ e = FetchFailed address (Some InvalidAddress))
        \/ posts (snd (fetchFirstMintedArtwork clock server address maxRetries w))
           = (posts w + maxRetries + 1)%nat
        \/ exists err, e = FetchFailed address (Some err)
                       /\ retryable err = false).
  { destruct (negb (truthy address) || negb (is_string address)) eqn:Hv.
    - rewrite (fetch_invalid clock server address maxRetries w Hv). cbn [fst snd].
      split; [eexists; reflexivity|].
      intros e He. injection He as <-. left. split; reflexivity.
    - apply valid_address in Hv as (a & -> & Ha).
      destruct (forLoop_outcome clock server a maxRetries Ha
                  (maxRetries + 2) 0 None w)
        as (r & w' & j & Hj & Hrun & Hposts & Hends); [lia | lia |].
      unfold fetchFirstMintedArtwork. rewrite Hrun. cbn [fst snd].
      split; [eexists; reflexivity|].
      intros e He. injection He as ->. cbn [ends_with] in Hends.
      right. destruct e as [m | ad le].
      + left. destruct Hends as (_ & -> & _). lia.
      + destruct Hends as (-> & err & -> & _ & [->|Hnr]).
        * left. lia.
        * right. exists err. split; [reflexivity | exact Hnr]. }
  destruct Hsettle as [Hex Hwhy].
  split; [exact Hex|]. split; [exact Hwhy|]. split.
  - intros clock' w' Hp. now apply fetch_same_result.
  - intros a w0 -> Ha Hg. split.
    + now apply tryBlock_refused.
    + now apply tryBlock_valid.
Qed.

Lemma rejections_and_quota_witness :
  let clock := fun _ : nat => 2000 in
  let server := fun _ : nat =>
    Fulfilled (Some (envelope_with_leaf (Some "ipfs://abc") [])) in
  fst (fetchFirstMintedArtwork clock server (VString "0x1234") 3 world_full)
  = fst (fetchFirstMintedArtwork clock server (VString "0x1234") 3 world0)
  /\ log (snd (tryBlock clock server (VString "0x1234") world_full))
     = [Gate false; Sleep (of_Z 59000); Gate false; Post "0x1234"].
Proof.
  cbv zeta. split.
  - apply (proj1 (proj2 (proj2 (rejections_and_quota
             (fun _ => 2000)
             (fun _ => Fulfilled (Some (envelope_with_leaf (Some "ipfs://abc") [])))
             (VString "0x1234") 3 world0)))).
    reflexivity.
  - refine (proj1 (proj2 (proj2 (proj2 (rejections_and_quota
             (fun _ => 2000)
             (fun _ => Fulfilled (Some (envelope_with_leaf (Some "ipfs://abc") [])))
             (VString "0x1234") 3 world0)))
             "0x1234" world_full eq_refl _ eq_refl)).
    discriminate.
Defined.

(* ================================================================= *)
(** ** Fulfilled POSTs without data *)

(** No [edges], or an empty array: [null]. *)
Lemma unwrap_no_edges (a : string) body :
  body ?. Envelope.data ?. Envelope.profile
       ?. Envelope.collectedCollectionsOrTokens ?. Envelope.edges = None
  \/ body ?. Envelope.data ?. Envelope.profile
         ?. Envelope.collectedCollectionsOrTokens ?. Envelope.edges = Some [] ->
  unwrap a body = inr None.
Proof. unfold unwrap. intros [-> | ->]; reflexivity. Qed.

(** A first edge whose [node] is there and below which a link is
    missing, or whose leaf is the empty string: [null]. *)
Lemma unwrap_no_leaf (a : string) body fe rest nd :
  body ?. Envelope.data ?. Envelope.profile
       ?. Envelope.collectedCollectionsOrTokens ?. Envelope.edges
  = Some (Some fe :: rest) ->
  Envelope.node fe = Some nd ->
  present (Envelope.media nd ?. Envelope.previewImage ?. Envelope.previewImage'
                          ?. Envelope.downloadableUri) = false ->
  unwrap a body = inr None.
Proof. unfold unwrap. intros -> -> ->. reflexivity. Qed.

(** A first edge that is [null], or whose [node] is missing: the read of
    the next property throws. *)
Lemma unwrap_no_node (a : string) body fe rest :
  body ?. Envelope.data ?. Envelope.profile
       ?. Envelope.collectedCollectionsOrTokens ?. Envelope.edges
  = Some (fe :: rest) ->
  fe ?. Envelope.node = None ->
  exists prop, unwrap a body = inl (TypeErrorReading prop).
Proof.
  unfold unwrap. intros -> H. destruct fe as [fe|]; cbn [chain] in H.
  - rewrite H. eexists; reflexivity.
  - eexists; reflexivity.
Qed.

(** C4 at an envelope whose first edge has no [node]: the try block
    throws a [TypeError], the catch block takes it for a non-retryable
    error, and the call rejects after its single POST instead of resolving
    with [null]. *)
Theorem first_edge_without_node_rejects :
  fst (fetchFirstMintedArtwork
         (fun _ => 1700000000000)
         (fun _ => Fulfilled (Some envelope_without_node))
         (VString "0x1234") DEFAULT_MAX_RETRIES world0)
  = Some (Rejected (FetchFailed (VString "0x1234")
                                (Some (TypeErrorReading "media"))))
  /\ posts (snd (fetchFirstMintedArtwork
                   (fun _ => 1700000000000)
                   (fun _ => Fulfilled (Some envelope_without_node))
                   (VString "0x1234") DEFAULT_MAX_RETRIES world0)) = 1%nat.
Proof. split; vm_compute; reflexivity. Qed.

(** The part of C4 that holds: a fulfilled POST without edges, or with a
    first edge whose [node] is there and below which the leaf cannot be
    reached, resolves with [null] after that single POST. *)
Lemma fetch_no_data_is_null clock server (a : string) (maxRetries : nat) (w : World) body :
  a <> "" ->
  server (posts w) = Fulfilled body ->
  (body ?. Envelope.data ?. Envelope.profile
        ?. Envelope.collectedCollectionsOrTokens ?. Envelope.edges = None
   \/ body ?. Envelope.data ?. Envelope.profile
          ?. Envelope.collectedCollectionsOrTokens ?. Envelope.edges = Some []
   \/ exists fe rest nd,
        body ?. Envelope.data ?. Envelope.profile
             ?. Envelope.collectedCollectionsOrTokens ?. Envelope.edges
        = Some (Some fe :: rest)
        /\ Envelope.node fe = Some nd
        /\ Envelope.media nd ?. Envelope.previewImage ?. Envelope.previewImage'
                             ?. Envelope.downloadableUri = None) ->
  fst (fetchFirstMintedArtwork clock server (VString a) maxRetries w)
  = Some (Resolved None)
  /\ posts (snd (fetchFirstMintedArtwork clock server (VString a) maxRetries w))
     = S (posts w).
Proof.
  intros Ha Hs H.
  apply (fetch_fulfilled clock server a maxRetries w body None Ha Hs).
  destruct H as [H | [H | (fe & rest & nd & He & Hn & Hl)]].
  - apply unwrap_no_edges. now left.
  - apply unwrap_no_edges. now right.
  - apply (unwrap_no_leaf a body fe rest nd He Hn). now rewrite Hl.
Qed.

(* ================================================================= *)
(** ** The gate over many calls *)

Lemma grants_cons (b : bool) (bs : list bool) :
  grants (b :: bs) = (if b then 1 else 0) + grants bs.
Proof.
  unfold grants. destruct b; simpl filter; simpl List.length;
    rewrite ?Nat2Z.inj_succ; lia.
Qed.

Lemma calls_cons t ts s :
  calls (t :: ts) s
  = (fst (checkRateLimit_at t s) :: fst (calls ts (snd (checkRateLimit_at t s))),
     snd (calls ts (snd (checkRateLimit_at t s)))).
Proof.
  cbn [calls]. destruct (checkRateLimit_at t s) as [b s1]. cbn [fst snd].
  destruct (calls ts s1) as [bs s2]. reflexivity.
Qed.

(** One call keeps the counter between 0 and the quota. *)
Lemma gate_keeps_bounds now s :
  0 <= requestCount s <= MAX_REQUESTS_PER_WINDOW ->
  0 <= requestCount (snd (checkRateLimit_at now s)) <= MAX_REQUESTS_PER_WINDOW.
Proof.
  intros H.
  destruct (Z_gt_le_dec (now - lastRequestTime s) RATE_LIMIT_WINDOW) as [Hr|Hr].
  - rewrite (gate_reset _ _ Hr). cbn. unfold MAX_REQUESTS_PER_WINDOW. lia.
  - destruct (Z_lt_ge_dec (requestCount s) MAX_REQUESTS_PER_WINDOW) as [Hc|Hc].
    + rewrite (gate_grant _ _ Hr Hc). cbn. lia.
    + rewrite (gate_refuse _ _ Hr Hc). cbn. lia.
Qed.

(** X1.  Whatever the times of the calls, a counter that starts between
    0 and 30 stays there.  While no call falls past the 60 s window, the
    window start does not move and the calls granted are the first
    [30 - requestCount] ones and no more: their number is the smaller of
    the number of calls and of what was left of the quota. *)
Theorem quota_respected (ts : list Z) (s : RateLimitState) :
  0 <= requestCount s <= 30 ->
  0 <= requestCount (snd (calls ts s)) <= 30
  /\ ((forall t, In t ts -> t - lastRequestTime s <= 60000) ->
      grants (fst (calls ts s))
      = Z.min (Z.of_nat (List.length ts)) (30 - requestCount s)
      /\ requestCount (snd (calls ts s))
         = requestCount s + grants (fst (calls ts s))
      /\ lastRequestTime (snd (calls ts s)) = lastRequestTime s).
Proof.
  revert s. induction ts as [|t ts IH]; intros s Hb.
  - cbn [calls fst snd]. split; [lia|]. intros _. unfold grants.
    cbn [filter List.length]. change (Z.of_nat 0) with 0.
    split; [lia | split; [lia | reflexivity]].
  - rewrite calls_cons. cbn [fst snd].
    pose proof (gate_keeps_bounds t s Hb) as Hb1.
    unfold MAX_REQUESTS_PER_WINDOW in Hb1.
    destruct (IH _ Hb1) as [Hbound Hwin].
    split; [exact Hbound|].
    intros Hin.
    assert (Ht : t - lastRequestTime s <= RATE_LIMIT_WINDOW)
      by (apply Hin; now left).
    rewrite grants_cons. cbn [List.length]. rewrite Nat2Z.inj_succ.
    destruct (Z_lt_ge_dec (requestCount s) MAX_REQUESTS_PER_WINDOW) as [Hc|Hc].
    + rewrite (gate_grant _ _ Ht Hc) in *. cbn [fst snd] in *.
      destruct Hwin as (Hg & Hc' & Hl).
      { intros t' Ht'. cbn [lastRequestTime]. apply Hin. now right. }
      cbn [requestCount lastRequestTime] in *.
      unfold MAX_REQUESTS_PER_WINDOW in Hc. lia.
    + rewrite (gate_refuse _ _ Ht Hc) in *. cbn [fst snd] in *.
      destruct Hwin as (Hg & Hc' & Hl).
      { intros t' Ht'. apply Hin. now right. }
      unfold MAX_REQUESTS_PER_WINDOW in Hc. lia.
Qed.

Lemma quota_respected_witness :
  let s := {| requestCount := 28; lastRequestTime := 1000 |} in
  let ts := [1500; 1500; 2000; 61000; 61000] in
  fst (calls ts s) = [true; true; false; false; false]
  /\ grants (fst (calls ts s)) = 2
  /\ requestCount (snd (calls ts s)) = 30
  /\ lastRequestTime (snd (calls ts s)) = 1000.
Proof.
  cbv zeta.
  pose (s := {| requestCount := 28; lastRequestTime := 1000 |}).
  pose (ts := [1500; 1500; 2000; 61000; 61000]).
  assert (Hb : 0 <= requestCount s <= 30) by (cbn; lia).
  assert (Hin : forall t, In t ts -> t - lastRequestTime s <= 60000).
  { intros t Ht. cbn in Ht. cbn [lastRequestTime s].
    repeat (destruct Ht as [<-|Ht]; [lia|]). contradiction. }
  destruct (proj2 (quota_respected ts s Hb) Hin) as (Hg & Hc & Hl).
  split; [reflexivity|]. split; [exact Hg|]. split; [|exact Hl].
  etransitivity; [exact Hc|]. rewrite Hg. reflexivity.
Defined.

(** X2.  The sleep the caller computes ends exactly at
    [lastRequestTime + 60000], and the reset needs more than that: if the
    timer is exact, the second call of the gate is refused like the first,
    the counters are left as they were, and the POST is issued all the
    same, uncounted.  One millisecond later the gate would have opened a
    new window. *)
Theorem exact_sleep_is_refused_again
        (clock : nat -> Z) (server : nat -> outcome) (a : string) (w : World) :
  a <> "" ->
  fst (checkRateLimit clock w) = false ->
  clock (S (S (ticks w)))
  = clock (S (ticks w))
    + (60000 - (clock (S (ticks w)) - lastRequestTime (limiter w))) ->
  let w' := snd (tryBlock clock server (VString a) w) in
  limiter w' = limiter w
  /\ posts w' = S (posts w)
  /\ log w'
     = log w ++ [Gate false;
                 Sleep (of_Z (60000 - (clock (S (ticks w))
                                       - lastRequestTime (limiter w))));
                 Gate false;
                 Post a]
  /\ fst (checkRateLimit_at (clock (S (S (ticks w))) + 1) (limiter w)) = true.
Proof.
  intros Ha Hg Hexact. cbv zeta.
  assert (Hat : checkRateLimit_at (clock (ticks w)) (limiter w)
                = (false, limiter w)).
  { revert Hg. unfold checkRateLimit, bind, dateNow. world.
    destruct (checkRateLimit_at (clock (ticks w)) (limiter w)) as [b s1] eqn:E.
    cbn [fst]. intros ->. now apply gate_false_inv in E as (-> & _). }
  pose proof Hat as Hfull. apply gate_false_inv in Hfull as (_ & _ & Hfull).
  assert (Hwake : clock (S (S (ticks w))) - lastRequestTime (limiter w) = 60000)
    by lia.
  assert (Hre : checkRateLimit_at (clock (S (S (ticks w)))) (limiter w)
                = (false, limiter w)).
  { apply gate_refuse; [unfold RATE_LIMIT_WINDOW; lia | exact Hfull]. }
  destruct (tryBlock_valid clock server a w Ha) as (_ & Hp & Hl & _).
  split.
  { rewrite Hl. destruct (acquire_cases clock w) as [[Hc _]|(_ & -> & _)].
    - rewrite Hat in Hc. discriminate.
    - now rewrite Hre. }
  split; [exact Hp|]. split.
  - rewrite (tryBlock_refused server clock a w Ha Hg), Hre. reflexivity.
  - rewrite gate_reset; [reflexivity | unfold RATE_LIMIT_WINDOW; lia].
Qed.

Lemma exact_sleep_is_refused_again_witness :
  let clock := clock_exact 2000 59000 in
  let server := fun _ : nat => Throws "offline" in
  limiter (snd (tryBlock clock server (VString "0x1234") world_full))
  = limiter world_full
  /\ log (snd (tryBlock clock server (VString "0x1234") world_full))
     = [Gate false; Sleep (of_Z 59000); Gate false; Post "0x1234"].
Proof.
  cbv zeta.
  assert (Ha : "0x1234" <> "") by discriminate.
  destruct (exact_sleep_is_refused_again
              (clock_exact 2000 59000) (fun _ => Throws "offline")
              "0x1234" world_full Ha eq_refl eq_refl)
    as (Hl & _ & Hlog & _).
  split; [exact Hl | exact Hlog].
Defined.

(* ================================================================= *)
(** ** More on the catch block and the loop *)

Section MoreRetries.

Variable clock : nat -> Z.
Variable server : nat -> outcome.
Variables (a : string) (n : nat).
Hypothesis a_valid : a <> "".

(** An error outside the retried classes reaches the [break], at any
    attempt. *)
Lemma catch_not_retryable k err :
  retryable err = false ->
  forall w, catchBlock n k err w = (Break, w).
Proof.
  intros Hnr w.
  destruct (catch_cases n k err w)
    as [(ms & _ & _ & Hr) | [(H & _) | (_ & _ & e & -> & H9)]].
  - congruence.
  - exact H.
  - exfalso. revert Hnr H9. unfold retryable, has_status.
    destruct (response e) as [r|]; [|discriminate].
    intros Hnr H9. rewrite H9 in Hnr. discriminate.
Qed.

(** An error of a retried class with attempts left leads to one sleep,
    the same in every world, and to the next iteration. *)
Lemma catch_retryable_continues k err :
  retryable err = true -> (k < n)%nat ->
  exists ms, forall w, catchBlock n k err w = (Continue, logged w [Sleep ms]).
Proof.
  intros Hr Hk. apply Nat.ltb_lt in Hk.
  destruct err as [| p | e | t]; try discriminate.
  revert Hr. unfold catchBlock, retryable, has_status. rewrite Hk.
  destruct (response e) as [r|].
  - destruct (Z.eqb_spec (status r) 429); [intros _; eexists; reflexivity|].
    destruct (Z.eqb_spec (status r) 403); [intros _; eexists; reflexivity|].
    cbn [orb andb]. rewrite Z.geb_leb. intros ->. eexists; reflexivity.
  - cbn [andb]. destruct (request e); [intros _; eexists; reflexivity|].
    cbn [orb]. intros ->. eexists; reflexivity.
Qed.

(** One iteration whose POST fails with [err] and whose catch block
    throws [e]. *)
Lemma forLoop_throw fuel k le w err e :
  (k <= n)%nat ->
  settle a (server (posts w)) = inl err ->
  (forall w1, catchBlock n k err w1 = (Throw e, w1)) ->
  forLoop clock server (VString a) n (S fuel) k le w
  = (Some (Rejected e), snd (tryBlock clock server (VString a) w)).
Proof.
  intros Hk Hs Hc. cbn [forLoop].
  destruct (Nat.leb_spec k n) as [_|]; [|lia].
  unfold bind.
  destruct (tryBlock_valid clock server a w a_valid) as (Hr & _).
  destruct (tryBlock clock server (VString a) w) as [r w1].
  cbn [fst snd] in *. rewrite Hr, Hs, Hc. reflexivity.
Qed.

(** Every attempt [k..n] fails with [errs i], is retried after [wait i],
    and the catch block of the last one ends by [act]. *)
Lemma forLoop_all_failing (errs : nat -> AxiosError) (wait : nat -> num)
      (act : action) :
  act <> Continue ->
  (forall i w1, (i < n)%nat ->
     catchBlock n i (Axios (errs i)) w1
     = (Continue, logged w1 [Sleep (wait i)])) ->
  (forall w1, catchBlock n n (Axios (errs n)) w1 = (act, w1)) ->
  forall fuel k le w,
    (k <= n)%nat -> (n - k < fuel)%nat ->
    (forall i, (k <= i <= n)%nat ->
       server (posts w + (i - k))%nat = Rejects (errs i)) ->
    exists l w',
      forLoop clock server (VString a) n fuel k le w
      = (Some (final_result a (Axios (errs n)) act), w')
      /\ posts w' = (posts w + (n - k) + 1)%nat
      /\ log w' = log w ++ l
      /\ rounds a wait k n l.
Proof.
  intros Hact Hretry Hlast.
  induction fuel as [|fuel IH]; intros k le w Hk Hf Hsrv; [lia|].
  pose proof (Hsrv k ltac:(lia)) as He0.
  rewrite Nat.sub_diag, Nat.add_0_r in He0.
  assert (Hs : settle a (server (posts w)) = inl (Axios (errs k)))
    by (rewrite He0; reflexivity).
  destruct (tryBlock_valid clock server a w a_valid)
    as (_ & Hp & _ & g & Hg & Hl).
  destruct (Nat.eq_dec k n) as [->|Hne].
  - exists (g ++ [Post a]), (snd (tryBlock clock server (VString a) w)).
    rewrite Nat.sub_diag, Nat.add_0_r.
    split.
    + destruct act as [| | e]; [congruence | |].
      * apply (forLoop_break clock server a n a_valid fuel n le w
                             (Axios (errs n))); [lia | exact Hs | exact Hlast].
      * apply (forLoop_throw fuel n le w (Axios (errs n)) e);
          [lia | exact Hs | exact Hlast].
    + split; [lia|]. split; [exact Hl|]. now constructor.
  - rewrite (forLoop_continue clock server a n a_valid fuel k le w
               (Axios (errs k)) (wait k));
      [| lia | exact Hs | intros w1; apply Hretry; lia].
    destruct (IH (S k) (Some (Axios (errs k)))
                 (logged (snd (tryBlock clock server (VString a) w))
                         [Sleep (wait k)]))
      as (l & w' & Hrun & Hposts & Hlog & Hrounds); [lia | lia | |].
    { intros i Hi. cbn [posts logged]. rewrite Hp.
      rewrite <- (Hsrv i ltac:(lia)). f_equal. lia. }
    cbn [posts log logged] in Hposts, Hlog. rewrite Hp in Hposts.
    exists (g ++ [Post a; Sleep (wait k)] ++ l), w'.
    split; [exact Hrun|]. split; [lia|]. split.
    + rewrite Hlog, Hl. rewrite <- !app_assoc. reflexivity.
    + apply rounds_retry; [lia | assumption | assumption].
Qed.

(** Attempts [k..j-1] fail on retried classes and attempt [j] ends the
    call: the loop settles as attempt [j] says, after one POST per
    attempt. *)
Lemma forLoop_until (j : nat) (res : result) :
  (j <= n)%nat ->
  forall fuel k le w,
    (k <= j)%nat -> (j - k < fuel)%nat ->
    (forall i, (k <= i < j)%nat ->
       exists err, settle a (server (posts w + (i - k))%nat) = inl err
                   /\ retryable err = true) ->
    (forall fuel' le' w1,
       posts w1 = (posts w + (j - k))%nat ->
       fst (forLoop clock server (VString a) n (S fuel') j le' w1) = Some res
       /\ posts (snd (forLoop clock server (VString a) n (S fuel') j le' w1))
          = S (posts w1)) ->
    fst (forLoop clock server (VString a) n fuel k le w) = Some res
    /\ posts (snd (forLoop clock server (VString a) n fuel k le w))
       = (posts w + (j - k) + 1)%nat.
Proof.
  intros Hj. induction fuel as [|fuel IH]; intros k le w Hk Hf Hpre Hend; [lia|].
  destruct (Nat.eq_dec k j) as [->|Hne].
  - destruct (Hend fuel le w) as [Hr Hp]; [lia|].
    split; [exact Hr|]. rewrite Hp. lia.
  - destruct (Hpre k ltac:(lia)) as (err & Hs & Hre).
    rewrite Nat.sub_diag, Nat.add_0_r in Hs.
    destruct (catch_retryable_continues k err Hre ltac:(lia)) as (ms & Hc).
    rewrite (forLoop_continue clock server a n a_valid fuel k le w err ms);
      [| lia | exact Hs | exact Hc].
    destruct (tryBlock_valid clock server a w a_valid) as (_ & Hp & _).
    set (w2 := logged (snd (tryBlock clock server (VString a) w)) [Sleep ms]).
    assert (Hp2 : posts w2 = S (posts w)) by exact Hp.
    destruct (IH (S k) (Some err) w2) as [Hr Hposts]; [lia | lia | | |].
    + intros i Hi. destruct (Hpre i ltac:(lia)) as (e' & Hs' & Hre').
      exists e'. split; [|exact Hre']. rewrite <- Hs'. do 2 f_equal. lia.
    + intros fuel' le' w1 Hw1. apply Hend. lia.
    + split; [exact Hr|]. lia.
Qed.

End MoreRetries.

Section MoreCalls.

Variable clock : nat -> Z.
Variable server : nat -> outcome.

(** One iteration whose POST is fulfilled and unwrapped to [v]. *)
Lemma forLoop_return (a : string) (n fuel k : nat) le w v :
  a <> "" -> (k <= n)%nat ->
  settle a (server (posts w)) = inr v ->
  forLoop clock server (VString a) n (S fuel) k le w
  = (Some (Resolved v), snd (tryBlock clock server (VString a) w)).
Proof.
  intros Ha Hk Hs. cbn [forLoop].
  destruct (Nat.leb_spec k n) as [_|]; [|lia].
  unfold bind.
  destruct (tryBlock_valid clock server a w Ha) as (Hr & _).
  destruct (tryBlock clock server (VString a) w) as [r w1].
  cbn [fst snd] in *. rewrite Hr, Hs. reflexivity.
Qed.

(** No response at all: a request that was sent, or a timeout code. *)
Lemma catch_no_response_retry (n k : nat) e w :
  response e = None ->
  request e = true \/ code e = Some "ECONNABORTED" ->
  (k < n)%nat ->
  catchBlock n k (Axios e) w = (Continue, logged w [Sleep (backoff k 1000)]).
Proof.
  intros Hr Hc Hk. apply Nat.ltb_lt in Hk.
  unfold catchBlock, has_status. rewrite Hr, Hk. cbn [andb].
  destruct (request e); [reflexivity|].
  destruct Hc as [|Hc]; [discriminate|]. rewrite Hc. reflexivity.
Qed.

Lemma catch_no_response_exhausted (n k : nat) e w :
  response e = None -> (n <= k)%nat ->
  catchBlock n k (Axios e) w = (Break, w).
Proof.
  intros Hr Hk. apply Nat.ltb_ge in Hk.
  unfold catchBlock, has_status. rewrite Hr, Hk. cbn [andb].
  destruct (request e); [reflexivity|].
  destruct (present (code e) && (text_of (code e) =? "ECONNABORTED")%string);
    reflexivity.
Qed.

End MoreCalls.

(** X3.  A server that answers 429 to every attempt: the call issues
    [maxRetries + 1] POSTs, sleeps after each but the last the wait of
    that 429 (hint, header or backoff), and rejects with the error thrown
    by the 429 branch itself, "Rate limit exceeded after N attempts", which
    is not the final error of the other failures: it wraps no cause and
    names no address. *)
Theorem always_429_gives_up
        (clock : nat -> Z) (server : nat -> outcome)
        (a : string) (maxRetries : nat) (w : World) (errs : nat -> AxiosError) :
  a <> "" ->
  (forall i, (i <= maxRetries)%nat ->
     server (posts w + i)%nat = Rejects (errs i)
     /\ has_status (errs i) 429 = true) ->
  exists l w',
    fetchFirstMintedArtwork clock server (VString a) maxRetries w
    = (Some (Rejected (RateLimitExceeded (maxRetries + 1))), w')
    /\ posts w' = (posts w + maxRetries + 1)%nat
    /\ log w' = log w ++ l
    /\ rounds a (fun k => waitTime429 k (errs k)) 0 maxRetries l
    /\ error_message (RateLimitExceeded (maxRetries + 1))
       = ("Rate limit exceeded after " ++ show_nat (maxRetries + 1)
            ++ " attempts. Please try again later.")%string.
Proof.
  intros Ha Hsrv.
  destruct (forLoop_all_failing clock server a maxRetries Ha errs
              (fun k => waitTime429 k (errs k))
              (Throw (RateLimitExceeded (maxRetries + 1))))
    with (fuel := (maxRetries + 2)%nat) (k := 0%nat) (le := @None caught) (w := w)
    as (l & w' & Hrun & Hposts & Hlog & Hrounds).
  - discriminate.
  - intros i w1 Hi. apply catch_429_retry; [|exact Hi]. apply Hsrv. lia.
  - intros w1. apply catch_429_exhausted; [|lia]. apply Hsrv. lia.
  - lia.
  - lia.
  - intros i Hi. rewrite Nat.sub_0_r. apply Hsrv. lia.
  - rewrite Nat.sub_0_r in Hposts.
    exists l, w'. split; [exact Hrun|]. split; [exact Hposts|].
    split; [exact Hlog|]. split; [exact Hrounds | reflexivity].
Qed.

Lemma always_429_gives_up_witness :
  exists l w',
    fetchFirstMintedArtwork (fun _ => 1700000000000) (always_status 429)
                            (VString "0x1234") 1 world0
    = (Some (Rejected (RateLimitExceeded 2)), w')
    /\ posts w' = 2%nat
    /\ log w' = l
    /\ rounds "0x1234" (fun k => backoff k 1000) 0 1 l.
Proof.
  assert (Ha : "0x1234" <> "") by discriminate.
  destruct (always_429_gives_up
              (fun _ => 1700000000000) (always_status 429) "0x1234" 1 world0
              (fun _ => {| response := Some {| status := 429; detail := None;
                                               retry_after := None |};
                           request := true; code := None;
                           shown := "AxiosError: Request failed" |}) Ha)
    as (l & w' & Hrun & Hposts & Hlog & Hrounds & _).
  { intros i _. split; reflexivity. }
  exists l, w'. repeat (split; [assumption|]). exact Hrounds.
Defined.

(** X4.  A server that never answers (the request went out and no
    response came, or the error carries the timeout code): every attempt
    is retried after [2^attempt * 1000] ms and, after [maxRetries + 1]
    POSTs, the final error wraps the last of these errors. *)
Theorem connection_failures_are_retried
        (clock : nat -> Z) (server : nat -> outcome)
        (a : string) (maxRetries : nat) (w : World) :
  a <> "" ->
  (forall i, (i <= maxRetries)%nat ->
     exists e, server (posts w + i)%nat = Rejects e
               /\ response e = None
               /\ (request e = true \/ code e = Some "ECONNABORTED")) ->
  exists e l w',
    server (posts w + maxRetries)%nat = Rejects e
    /\ fetchFirstMintedArtwork clock server (VString a) maxRetries w
       = (Some (Rejected (FetchFailed (VString a) (Some (Axios e)))), w')
    /\ posts w' = (posts w + maxRetries + 1)%nat
    /\ log w' = log w ++ l
    /\ rounds a (fun k => of_Z (2 ^ Z.of_nat k * 1000)) 0 maxRetries l.
Proof.
  intros Ha Hsrv.
  destruct (forLoop_all_retried clock server a maxRetries Ha
              (fun e => response e = None
                        /\ (request e = true \/ code e = Some "ECONNABORTED"))
              (fun k => backoff k 1000))
    with (fuel := (maxRetries + 2)%nat) (k := 0%nat) (le := @None caught) (w := w)
    as (e & l & w' & He & Hrun & Hposts & Hlog & Hrounds).
  - intros e k w0 [Hr Hc] Hk. now apply catch_no_response_retry.
  - intros e w0 [Hr Hc]. now apply catch_no_response_exhausted.
  - lia.
  - lia.
  - intros i Hi. apply Hsrv. lia.
  - rewrite Nat.sub_0_r in He, Hposts.
    exists e, l, w'. repeat (split; [assumption|]). exact Hrounds.
Qed.

Lemma connection_failures_are_retried_witness :
  exists l w',
    fetchFirstMintedArtwork (fun _ => 1700000000000) (fun _ => Rejects e_network)
                            (VString "0x1234") 2 world0
    = (Some (Rejected (FetchFailed (VString "0x1234") (Some (Axios e_network)))),
       w')
    /\ posts w' = 3%nat
    /\ log w' = l
    /\ rounds "0x1234" (fun k => of_Z (2 ^ Z.of_nat k * 1000)) 0 2 l.
Proof.
  assert (Ha : "0x1234" <> "") by discriminate.
  destruct (connection_failures_are_retried
              (fun _ => 1700000000000) (fun _ => Rejects e_network)
              "0x1234" 2 world0 Ha)
    as (e & l & w' & He & Hrun & Hposts & Hlog & Hrounds).
  { intros i _. exists e_network. split; [reflexivity|].
    split; [reflexivity | left; reflexivity]. }
  injection He as <-.
  exists l, w'. repeat (split; [assumption|]). exact Hrounds.
Defined.

(** X5.  A failure outside the retried classes (an HTTP status below 500
    other than 429 and 403, an error that is no AxiosError, the TypeError
    of the unwrapping) ends the call at once, whatever the retry bound:
    one passage through the gate, one POST, no backoff sleep, and the
    final error wrapping that failure. *)
Theorem non_retryable_fails_once
        (clock : nat -> Z) (server : nat -> outcome)
        (a : string) (maxRetries : nat) (w : World) (err : caught) :
  a <> "" ->
  settle a (server (posts w)) = inl err ->
  retryable err = false ->
  exists g w',
    fetchFirstMintedArtwork clock server (VString a) maxRetries w
    = (Some (Rejected (FetchFailed (VString a) (Some err))), w')
    /\ posts w' = S (posts w)
    /\ gating g
    /\ log w' = log w ++ g ++ [Post a].
Proof.
  intros Ha Hs Hnr.
  destruct (tryBlock_valid clock server a w Ha) as (_ & Hp & _ & g & Hg & Hl).
  exists g, (snd (tryBlock clock server (VString a) w)).
  split.
  - unfold fetchFirstMintedArtwork. rewrite fuel_two.
    apply forLoop_break; [exact Ha | lia | exact Hs |].
    now apply catch_not_retryable.
  - split; [exact Hp|]. split; [exact Hg | exact Hl].
Qed.

Lemma non_retryable_fails_once_witness :
  exists g w',
    fetchFirstMintedArtwork (fun _ => 1700000000000) (always_status 404)
                            (VString "0x1234") 3 world0
    = (Some (Rejected (FetchFailed (VString "0x1234")
         (Some (Axios {| response := Some {| status := 404; detail := None;
                                             retry_after := None |};
                         request := true; code := None;
                         shown := "AxiosError: Request failed" |})))), w')
    /\ posts w' = 1%nat
    /\ gating g
    /\ log w' = g ++ [Post "0x1234"].
Proof.
  apply (non_retryable_fails_once (fun _ => 1700000000000) (always_status 404)
                                  "0x1234" 3 world0);
    [discriminate | reflexivity | reflexivity].
Defined.

(** X6.  The call stops at the first attempt that is fulfilled or fails
    outside the retried classes: if attempts [0..j-1] fail on retried
    classes and attempt [j <= maxRetries] does not, the call issues
    [j + 1] POSTs and settles as attempt [j] alone dictates, resolving
    with what its envelope unwraps to or rejecting with the final error
    around its failure. *)
Theorem settles_at_first_final_attempt
        (clock : nat -> Z) (server : nat -> outcome)
        (a : string) (maxRetries j : nat) (w : World) :
  a <> "" ->
  (j <= maxRetries)%nat ->
  (forall i, (i < j)%nat ->
     exists err, settle a (server (posts w + i)%nat) = inl err
                 /\ retryable err = true) ->
  (forall err, settle a (server (posts w + j)%nat) = inl err ->
               retryable err = false) ->
  fst (fetchFirstMintedArtwork clock server (VString a) maxRetries w)
  = Some match settle a (server (posts w + j)%nat) with
         | inr v => Resolved v
         | inl err => Rejected (FetchFailed (VString a) (Some err))
         end
  /\ posts (snd (fetchFirstMintedArtwork clock server (VString a) maxRetries w))
     = (posts w + j + 1)%nat.
Proof.
  intros Ha Hj Hpre Hfin.
  unfold fetchFirstMintedArtwork.
  destruct (forLoop_until clock server a maxRetries Ha j
              match settle a (server (posts w + j)%nat) with
              | inr v => Resolved v
              | inl err => Rejected (FetchFailed (VString a) (Some err))
              end Hj (maxRetries + 2)%nat 0%nat None w) as [Hr Hp].
  - lia.
  - lia.
  - intros i Hi. rewrite Nat.sub_0_r. apply Hpre. lia.
  - intros fuel' le' w1 Hw1. rewrite Nat.sub_0_r in Hw1.
    destruct (tryBlock_valid clock server a w1 Ha) as (_ & Hp1 & _).
    destruct (settle a (server (posts w + j)%nat)) as [err|v] eqn:Es;
      rewrite <- Hw1 in Es.
    + rewrite (forLoop_break clock server a maxRetries Ha fuel' j le' w1 err Hj Es).
      * split; [reflexivity | exact Hp1].
      * apply catch_not_retryable, Hfin. reflexivity.
    + rewrite (forLoop_return clock server a maxRetries fuel' j le' w1 v Ha Hj Es).
      split; [reflexivity | exact Hp1].
  - rewrite Nat.sub_0_r in Hp. split; [exact Hr | exact Hp].
Qed.

Lemma settles_at_first_final_attempt_witness :
  fst (fetchFirstMintedArtwork (fun _ => 1700000000000) server_recovering
                               (VString "0x1234") 3 world0)
  = Some (Resolved (Some {| downloadableUri := "ipfs://abc";
                            address := "0x1234" |}))
  /\ posts (snd (fetchFirstMintedArtwork (fun _ => 1700000000000)
                   server_recovering (VString "0x1234") 3 world0)) = 3%nat.
Proof.
  apply (settles_at_first_final_attempt
           (fun _ => 1700000000000) server_recovering "0x1234" 3 2 world0).
  - discriminate.
  - lia.
  - intros i Hi. destruct i as [|[|i]]; [| | lia];
      (eexists; split; [reflexivity | reflexivity]).
  - intros err H. discriminate H.
Defined.

(* ================================================================= *)
(** ** The numbers read from a 429 *)

Lemma string_app_nil_r (s : string) : (s ++ "")%string = s.
Proof. induction s as [|c s IH]; simpl; [reflexivity | now rewrite IH]. Qed.

Lemma span_digits_all d : all_digits d = true -> span_digits d = (d, "").
Proof.
  intros H. rewrite <- (string_app_nil_r d) at 1.
  now apply span_digits_app.
Qed.

Lemma digit_value_nonneg c : 0 <= digit_value c.
Proof. unfold digit_value. apply Nat2Z.is_nonneg. Qed.

Lemma digits_value_nonneg s : forall acc, 0 <= acc -> 0 <= digits_value acc s.
Proof.
  induction s as [|c s IH]; intros acc H; cbn [digits_value]; [exact H|].
  apply IH. pose proof (digit_value_nonneg c). lia.
Qed.

Lemma Qmake_nonneg (z : Z) (p : positive) : 0 <= z -> (0 <= z # p)%Q.
Proof. intros H. unfold Qle. cbn [Qnum Qden]. lia. Qed.

Lemma Qred_nonneg (q : Q) : (0 <= q)%Q -> (0 <= Qred q)%Q.
Proof. intros H. now rewrite Qred_correct. Qed.

(** [parseFloat] of what the capture group can hold is a number, and not
    a negative one. *)
Lemma parseFloat_literal c :
  decimal_literal c -> exists q, parseFloat c = Fin q /\ (0 <= q)%Q.
Proof.
  intros (d1 & d2 & Hne & Hd1 & Hd2 & [-> | ->]); unfold parseFloat.
  - rewrite (span_digits_all d1 Hd1). rewrite string_app_nil_r.
    destruct d1 as [|x d1]; [congruence|].
    eexists. split; [reflexivity|]. apply Qred_nonneg.
    apply Qmake_nonneg. now apply digits_value_nonneg.
  - change (d1 ++ "." ++ d2)%string with (d1 ++ String "." d2)%string.
    rewrite (span_digits_app d1 (String "." d2) Hd1) by reflexivity.
    rewrite (span_digits_all d2 Hd2). cbn [fst].
    destruct (d1 ++ d2)%string as [|x ds] eqn:E.
    { destruct d1; [congruence | discriminate]. }
    eexists. split; [reflexivity|]. apply Qred_nonneg.
    apply Qmake_nonneg. now apply digits_value_nonneg.
Qed.

(** X8.  When the body's [detail] holds the hint, the wait taken from it
    is a number and not a negative one: a matching hint never leads to a
    [NaN] or negative sleep. *)
Theorem hint_wait_is_finite (attempt : nat) (e : AxiosError) (c : string) :
  present (response e ?. detail) = true ->
  detail_match (text_of (response e ?. detail)) = Some c ->
  exists q, waitTime429 attempt e = Fin q /\ (0 <= q)%Q.
Proof.
  intros Hd Hm. unfold waitTime429. rewrite Hd, Hm. cbn [negb andb].
  apply detail_match_sound in Hm as [Hc _].
  destruct (parseFloat_literal c Hc) as (q & -> & Hq).
  eexists. split; [reflexivity|]. apply Qred_nonneg.
  apply Qmult_le_0_compat; [exact Hq | discriminate].
Qed.

Lemma hint_wait_is_finite_witness :
  exists q,
    waitTime429 0 (e429 (Some "Slow down: try again after 0.07 seconds") None)
    = Fin q /\ (0 <= q)%Q.
Proof.
  apply (hint_wait_is_finite 0
           (e429 (Some "Slow down: try again after 0.07 seconds") None) "0.07");
    reflexivity.
Defined.

(** [parseInt] of a text that begins with a letter. *)
Lemma parseInt_letter c t : is_letter c = true -> parseInt (String c t) = NaN.
Proof.
  destruct c as [b0 b1 b2 b3 b4 b5 b6 b7].
  destruct b0, b1, b2, b3, b4, b5, b6, b7;
    (discriminate || (intros _; reflexivity)).
Qed.

(** X7.  A 429 without [detail] whose [Retry-After] header is an
    HTTP-date (or any text that begins with a letter): the wait is [NaN],
    and with attempts left that is what the catch block sleeps before the
    retry. *)
Theorem retry_after_date_waits_NaN
        (maxRetries attempt : nat) (e : AxiosError) (c : ascii) (t : string)
        (w : World) :
  has_status e 429 = true ->
  present (response e ?. detail) = false ->
  response e ?. retry_after = Some (String c t) ->
  is_letter c = true ->
  waitTime429 attempt e = NaN
  /\ ((attempt < maxRetries)%nat ->
      catchBlock maxRetries attempt (Axios e) w = (Continue, logged w [Sleep NaN])).
Proof.
  intros Hs Hd Hh Hc.
  assert (Hw : waitTime429 attempt e = NaN).
  { unfold waitTime429. rewrite Hd, Hh. cbn [present text_of negb andb].
    change (String c t =? "")%string with false. cbn [negb].
    now rewrite parseInt_letter. }
  split; [exact Hw|].
  intros Hk. rewrite (catch_429_retry maxRetries attempt w e Hs Hk), Hw.
  reflexivity.
Qed.

Lemma retry_after_date_waits_NaN_witness :
  waitTime429 0 (e429 None (Some "Wed, 21 Oct 2015 07:28:00 GMT")) = NaN
  /\ catchBlock 3 0 (Axios (e429 None (Some "Wed, 21 Oct 2015 07:28:00 GMT")))
                 world0
     = (Continue, logged world0 [Sleep NaN]).
Proof.
  destruct (retry_after_date_waits_NaN 3 0
              (e429 None (Some "Wed, 21 Oct 2015 07:28:00 GMT"))
              "W" "ed, 21 Oct 2015 07:28:00 GMT" world0
              eq_refl eq_refl eq_refl eq_refl) as [H1 H2].
  split; [exact H1 | apply H2; lia].
Defined.







(* ================================================================= *)
(** ** The version without retries *)

(** With no retry allowed, whatever is not a 429 reaches the [break]. *)
Lemma catch_no_retry err w :
  (forall e, err = Axios e -> has_status e 429 = false) ->
  catchBlock 0 0 err w = (Break, w).
Proof.
  intros H.
  destruct (catch_cases 0 0 err w)
    as [(ms & _ & Hlt & _) | [(Hb & _) | (_ & _ & e & -> & H9)]].
  - lia.
  - exact Hb.
  - rewrite (H e eq_refl) in H9. discriminate.
Qed.

(** X10.  The version of the module without retries issues at most one
    POST and never reads the clock, calls the gate or sleeps.  The version
    with retries settles exactly like it whenever the first attempt is
    final (invalid address, fulfilled POST, or a failure outside the
    retried classes), and, when no retry is allowed, on every first
    attempt that is not a 429. *)
Theorem unretried_version_agrees
        (clock : nat -> Z) (server : nat -> outcome)
        (address : jsval) (maxRetries : nat) (w : World) :
  let plain := Unretried.fetchFirstMintedArtwork server address w in
  let retried := fetchFirstMintedArtwork clock server address maxRetries w in
  (limiter (snd plain) = limiter w
   /\ ticks (snd plain) = ticks w
   /\ ((posts (snd plain) = posts w /\ log (snd plain) = log w)
       \/ (posts (snd plain) = S (posts w)
           /\ log (snd plain) = log w ++ [Post (to_text address)])))
  /\ ((forall err, settle (to_text address) (server (posts w)) = inl err ->
                   retryable err = false) ->
      fst retried = Some (fst plain))
  /\ (maxRetries = 0%nat ->
      (forall e, server (posts w) = Rejects e -> has_status e 429 = false) ->
      fst retried = Some (fst plain)).
Proof.
  cbv zeta. unfold Unretried.fetchFirstMintedArtwork.
  destruct (negb (truthy address) || negb (is_string address)) eqn:Hv.
  - rewrite (fetch_invalid clock server address maxRetries w Hv).
    unfold ret. cbn [fst snd].
    split; [split; [reflexivity | split; [reflexivity | left; now split]]|].
    split; reflexivity.
  - unfold bind, axiosPost, ret. cbn [fst snd limiter ticks posts log].
    split; [split; [reflexivity | split; [reflexivity | right; now split]]|].
    apply valid_address in Hv as (a & -> & Ha). cbn [to_text].
    unfold fetchFirstMintedArtwork. rewrite fuel_two.
    split.
    + intros Hfin.
      destruct (settle a (server (posts w))) as [err|v] eqn:Es.
      * rewrite (forLoop_break clock server a maxRetries Ha _ 0 None w err
                   ltac:(lia) Es); [reflexivity|].
        intros w1. apply catch_not_retryable. now apply Hfin.
      * now rewrite (forLoop_return clock server a maxRetries _ 0 None w v Ha
                       ltac:(lia) Es).
    + intros -> H9.
      destruct (settle a (server (posts w))) as [err|v] eqn:Es.
      * rewrite (forLoop_break clock server a 0 Ha _ 0 None w err
                   ltac:(lia) Es); [reflexivity|].
        intros w1. apply catch_no_retry. intros e ->. apply H9.
        destruct (server (posts w)) as [body|e'|t]; cbn [settle] in Es.
        -- unfold unwrap in Es.
           repeat match type of Es with
                  | match ?x with _ => _ end = _ => destruct x
                  | (if ?x then _ else _) = _ => destruct x
                  end; discriminate.
        -- congruence.
        -- discriminate.
      * now rewrite (forLoop_return clock server a 0 _ 0 None w v Ha
                       ltac:(lia) Es).
Qed.

Lemma unretried_version_agrees_witness :
  fst (fetchFirstMintedArtwork (fun _ => 1700000000000) (always_status 404)
                               (VString "0x1234") 3 world0)
  = Some (fst (Unretried.fetchFirstMintedArtwork (always_status 404)
                                                 (VString "0x1234") world0))
  /\ fst (fetchFirstMintedArtwork (fun _ => 1700000000000) (always_status 500)
                                  (VString "0x1234") 0 world0)
     = Some (fst (Unretried.fetchFirstMintedArtwork (always_status 500)
                                                    (VString "0x1234") world0)).
Proof.
  split.
  - apply (proj1 (proj2 (unretried_version_agrees
             (fun _ => 1700000000000) (always_status 404)
             (VString "0x1234") 3 world0))).
    intros err H. injection H as <-. reflexivity.
  - apply (proj2 (proj2 (unretried_version_agrees
             (fun _ => 1700000000000) (always_status 500)
             (VString "0x1234") 0 world0))); [reflexivity|].
    intros e H. injection H as <-. reflexivity.
Defined.

(* ================================================================= *)
(** ** The handler *)

(** A call of the fetch always settles. *)
Lemma fetch_settles clock server (address : jsval) (n : nat) (w : World) :
  exists r, fst (fetchFirstMintedArtwork clock server address n w) = Some r.
Proof.
  destruct (negb (truthy address) || negb (is_string address)) eqn:Hv.
  - rewrite (fetch_invalid clock server address n w Hv). eexists; reflexivity.
  - apply valid_address in Hv as (a & -> & Ha).
    destruct (forLoop_outcome clock server a n Ha (n + 2) 0 None w)
      as (r & w' & j & _ & Hrun & _); [lia | lia |].
    unfold fetchFirstMintedArtwork. rewrite Hrun. eexists; reflexivity.
Qed.

Section HandlerFacts.

Variable clock : nat -> Z.
Variable server : nat -> outcome.
Variable registerFontThrows : bool.
Variable loadImage : nat -> string -> option (positive * positive).
Variable templatePath : string.
Variable layout : positive -> positive -> Image -> Q * Q * Q * Q.

Let handle := handler clock server registerFontThrows loadImage templatePath layout.
Let fetch (address : jsval) :=
  fetchFirstMintedArtwork clock server address DEFAULT_MAX_RETRIES.

(** Once the address is there, the font registered and the template
    loaded, the handler runs the fetch and answers by how it settled. *)
Lemma handler_after_template address w tpl :
  truthy address = true ->
  registerFontThrows = false ->
  load loadImage 0 templatePath = Some tpl ->
  snd (handle address w) = snd (fetch address w)
  /\ fst (handle address w)
     = match fst (fetch address w) with
       | None => None
       | Some (Rejected _) => Some internalError
       | Some (Resolved art) => Some (render loadImage layout tpl art)
       end.
Proof.
  intros Ht Hf Hl. unfold handle, handler, fetch. rewrite Ht, Hf, Hl.
  cbn [negb]. unfold bind, ret.
  destruct (fetchFirstMintedArtwork clock server address DEFAULT_MAX_RETRIES w)
    as [r w1].
  split; reflexivity.
Qed.

(** The handler answers, and its answer is one of the three. *)
Lemma handler_answers address w :
  exists reply,
    fst (handle address w) = Some reply
    /\ (reply = badRequest /\ truthy address = false
        \/ reply = internalError /\ truthy address = true
        \/ exists tpl art,
             reply = render loadImage layout tpl art
             /\ truthy address = true
             /\ fst (fetch address w) = Some (Resolved art)).
Proof.
  destruct (truthy address) eqn:Ht.
  - destruct (sumbool_of_bool registerFontThrows) as [Hf|Hf].
    + exists internalError. split; [|right; left; now split].
      unfold handle, handler. now rewrite Ht, Hf.
    + destruct (load loadImage 0 templatePath) as [tpl|] eqn:Hl.
      * destruct (handler_after_template address w tpl Ht Hf Hl) as [_ Hr].
        destruct (fetch_settles clock server address DEFAULT_MAX_RETRIES w)
          as (r & Hs).
        fold (fetch address w) in Hs. rewrite Hs in Hr.
        destruct r as [art|e].
        -- exists (render loadImage layout tpl art). split; [exact Hr|].
           right; right. exists tpl, art. repeat split. exact Hs.
        -- exists internalError. split; [exact Hr | right; left; now split].
      * exists internalError. split; [|right; left; now split].
        unfold handle, handler. now rewrite Ht, Hf, Hl.
  - exists badRequest. split; [|left; now split].
    unfold handle, handler. now rewrite Ht.
Qed.

End HandlerFacts.

(** X11.  The handler always answers.  It answers 400 exactly when the
    [address] of the query is missing or falsy, and then nothing else
    happens: no font, no image, no fetch, the rate limiter untouched.  An
    address that is there but is no string (a repeated query parameter)
    gets 500, not 400, without a single POST. *)
Theorem handler_status_of_address
        (clock : nat -> Z) (server : nat -> outcome) (registerFontThrows : bool)
        (loadImage : nat -> string -> option (positive * positive))
        (templatePath : string)
        (layout : positive -> positive -> Image -> Q * Q * Q * Q)
        (address : jsval) (w : World) :
  let run := handler clock server registerFontThrows loadImage templatePath
                     layout address w in
  (exists reply, fst run = Some reply)
  /\ (truthy address = false -> run = (Some badRequest, w))
  /\ (fst run = Some badRequest -> truthy address = false)
  /\ (truthy address = true -> is_string address = false ->
      fst run = Some internalError /\ posts (snd run) = posts w).
Proof.
  cbv zeta.
  destruct (handler_answers clock server registerFontThrows loadImage
              templatePath layout address w) as (reply & Hr & Hwhy).
  split; [exists reply; exact Hr|]. split; [|split].
  - intros Ht. unfold handler. now rewrite Ht.
  - intros Hb. rewrite Hb in Hr. injection Hr as <-.
    destruct Hwhy as [[_ Ht] | [[H _] | (tpl & art & H & _)]];
      [exact Ht | discriminate H | discriminate H].
  - intros Ht Hs.
    assert (Hbad : negb (truthy address) || negb (is_string address) = true)
      by (rewrite Hs; apply orb_true_r).
    unfold handler. rewrite Ht. cbn [negb].
    destruct registerFontThrows; [split; reflexivity|].
    destruct (load loadImage 0 templatePath) as [tpl|]; [|split; reflexivity].
    unfold bind.
    rewrite (fetch_invalid clock server address DEFAULT_MAX_RETRIES w Hbad).
    split; reflexivity.
Qed.

Lemma handler_status_of_address_witness :
  let run address :=
    handler (fun _ => 1700000000000) (always_status 500) false
            (fun _ _ => Some (1200, 1200)%positive) "/var/task/public/template.png"
            layoutFit address world0 in
  run (VOther false "undefined") = (Some badRequest, world0)
  /\ fst (run (VOther true "0xa,0xb")) = Some internalError
  /\ posts (snd (run (VOther true "0xa,0xb"))) = 0%nat.
Proof.
  cbv zeta. split.
  - apply (proj1 (proj2 (handler_status_of_address
             (fun _ => 1700000000000) (always_status 500) false
             (fun _ _ => Some (1200, 1200)%positive)
             "/var/task/public/template.png" layoutFit
             (VOther false "undefined") world0))).
    reflexivity.
  - apply (proj2 (proj2 (proj2 (handler_status_of_address
             (fun _ => 1700000000000) (always_status 500) false
             (fun _ _ => Some (1200, 1200)%positive)
             "/var/task/public/template.png" layoutFit
             (VOther true "0xa,0xb") world0)))); reflexivity.
Defined.

(** X12.  With a valid address, the font registered and the template
    loaded, the handler answers by how the fetch settles: 500 when it
    rejects, the rendered PNG when it resolves.  So a fulfilled POST whose
    first edge has no [node] is answered with 500, while one without edges
    is answered with the PNG drawn for "no artwork". *)
Theorem handler_follows_fetch
        (clock : nat -> Z) (server : nat -> outcome)
        (loadImage : nat -> string -> option (positive * positive))
        (templatePath : string)
        (layout : positive -> positive -> Image -> Q * Q * Q * Q)
        (a : string) (w : World) (tpl : Image) :
  a <> "" ->
  load loadImage 0 templatePath = Some tpl ->
  let run := handler clock server false loadImage templatePath layout
                     (VString a) w in
  let fetched := fetchFirstMintedArtwork clock server (VString a)
                                         DEFAULT_MAX_RETRIES w in
  snd run = snd fetched
  /\ (forall e, fst fetched = Some (Rejected e) -> fst run = Some internalError)
  /\ (forall art, fst fetched = Some (Resolved art) ->
                  fst run = Some (render loadImage layout tpl art))
  /\ (forall body fe rest,
        server (posts w) = Fulfilled body ->
        body ?. Envelope.data ?. Envelope.profile
             ?. Envelope.collectedCollectionsOrTokens ?. Envelope.edges
        = Some (fe :: rest) ->
        fe ?. Envelope.node = None ->
        fst run = Some internalError)
  /\ (forall body,
        server (posts w) = Fulfilled body ->
        body ?. Envelope.data ?. Envelope.profile
             ?. Envelope.collectedCollectionsOrTokens ?. Envelope.edges
        = Some [] ->
        fst run = Some (render loadImage layout tpl None)).
Proof.
  intros Ha Hl. cbv zeta.
  assert (Ht : truthy (VString a) = true).
  { cbn. apply String.eqb_neq in Ha. now rewrite Ha. }
  destruct (handler_after_template clock server false loadImage templatePath
              layout (VString a) w tpl Ht eq_refl Hl) as [Hw Hr].
  split; [exact Hw|]. split; [|split; [|split]].
  - intros e He. now rewrite Hr, He.
  - intros art He. now rewrite Hr, He.
  - intros body fe rest Hs He Hn.
    destruct (unwrap_no_node a body fe rest He Hn) as (prop & Hu).
    rewrite Hr. unfold fetchFirstMintedArtwork. rewrite fuel_two.
    rewrite (forLoop_break clock server a DEFAULT_MAX_RETRIES Ha _ 0 None w
               (TypeErrorReading prop) ltac:(lia)); [reflexivity | |].
    + rewrite Hs. exact Hu.
    + intros w1. now apply catch_not_retryable.
  - intros body Hs He.
    rewrite Hr. unfold fetchFirstMintedArtwork. rewrite fuel_two.
    rewrite (forLoop_return clock server a DEFAULT_MAX_RETRIES _ 0 None w None
               Ha ltac:(lia)); [reflexivity|].
    rewrite Hs. apply unwrap_no_edges. now right.
Qed.

Lemma handler_follows_fetch_witness :
  fst (handler (fun _ => 1700000000000)
               (fun _ => Fulfilled (Some envelope_without_node)) false
               (fun _ _ => Some (1200, 1200)%positive)
               "/var/task/public/template.png" layoutFit
               (VString "0x1234") world0)
  = Some internalError.
Proof.
  refine (proj1 (proj2 (proj2 (proj2 (handler_follows_fetch
            (fun _ => 1700000000000)
            (fun _ => Fulfilled (Some envelope_without_node))
            (fun _ _ => Some (1200, 1200)%positive)
            "/var/task/public/template.png" layoutFit
            "0x1234" world0 _ _ eq_refl)))) _ _ _ eq_refl eq_refl eq_refl).
  discriminate.
Defined.




(* ================================================================= *)
(** ** The placement of the artwork *)

Section Placement.

Local Open Scope Q_scope.




End Placement.

(* ================================================================= *)
(** ** What a whole call does to the counters *)

Section CallBounds.

Variable clock : nat -> Z.
Variable server : nat -> outcome.

(** A property of the limiter state that every call of the gate keeps. *)
Variable Inv : RateLimitState -> Prop.
Hypothesis Inv_gate : forall now s, Inv s -> Inv (snd (checkRateLimit_at now s)).

Lemma acquire_keeps w : Inv (limiter w) -> Inv (limiter (snd (acquire clock w))).
Proof.
  intros H. destruct (acquire_cases clock w) as [[Hc _]|(_ & -> & _)].
  - pose proof (Inv_gate (clock (ticks w)) (limiter w) H) as H1.
    now rewrite Hc in H1.
  - now apply Inv_gate.
Qed.

Lemma catch_keeps_limiter n k err w :
  limiter (snd (catchBlock n k err w)) = limiter w.
Proof.
  destruct (catch_cases n k err w)
    as [(ms & -> & _) | [(-> & _) | (-> & _)]]; reflexivity.
Qed.

Lemma forLoop_keeps (a : string) (n : nat) :
  a <> "" ->
  forall fuel k le w,
    Inv (limiter w) ->
    Inv (limiter (snd (forLoop clock server (VString a) n fuel k le w))).
Proof.
  intros Ha. induction fuel as [|fuel IH]; intros k le w H; [exact H|].
  cbn [forLoop]. destruct (k <=? n)%nat; [|exact H].
  unfold bind.
  destruct (tryBlock_valid clock server a w Ha) as (_ & _ & Hl & _).
  destruct (tryBlock clock server (VString a) w) as [r w1].
  cbn [snd] in Hl.
  assert (H1 : Inv (limiter w1)) by (rewrite Hl; now apply acquire_keeps).
  destruct r as [err|v]; [|exact H1].
  pose proof (catch_keeps_limiter n k err w1) as Hc.
  destruct (catchBlock n k err w1) as [act w2]. cbn [snd] in Hc.
  assert (H2 : Inv (limiter w2)) by now rewrite Hc.
  destruct act; [apply IH; exact H2 | exact H2 | exact H2].
Qed.

End CallBounds.

(** X15.  Whatever the server and the clock do, one call issues at most
    [maxRetries + 1] POSTs (none for an invalid address, at least one
    otherwise), and it leaves the request counter between 0 and 30 if it
    found it there. *)
Theorem call_is_bounded
        (clock : nat -> Z) (server : nat -> outcome)
        (address : jsval) (maxRetries : nat) (w : World) :
  let w' := snd (fetchFirstMintedArtwork clock server address maxRetries w) in
  (posts w <= posts w' <= posts w + maxRetries + 1)%nat
  /\ (posts w' = posts w
      <-> negb (truthy address) || negb (is_string address) = true)
  /\ (0 <= requestCount (limiter w) <= 30 ->
      0 <= requestCount (limiter w') <= 30).
Proof.
  cbv zeta.
  destruct (negb (truthy address) || negb (is_string address)) eqn:Hv.
  - rewrite (fetch_invalid clock server address maxRetries w Hv). cbn [snd].
    split; [lia|]. split; [tauto | tauto].
  - apply valid_address in Hv as (a & -> & Ha).
    destruct (forLoop_outcome clock server a maxRetries Ha
                (maxRetries + 2) 0 None w)
      as (r & w' & j & Hj & Hrun & Hposts & _); [lia | lia |].
    split; [|split].
    + unfold fetchFirstMintedArtwork. rewrite Hrun. cbn [snd]. lia.
    + unfold fetchFirstMintedArtwork. rewrite Hrun. cbn [snd].
      split; [lia | discriminate].
    + intros Hb. unfold fetchFirstMintedArtwork.
      apply (forLoop_keeps clock server
               (fun s => 0 <= requestCount s <= 30)); [|exact Ha|exact Hb].
      intros now s Hs. now apply gate_keeps_bounds.
Qed.

Lemma call_is_bounded_witness :
  let w' := snd (fetchFirstMintedArtwork (clock_exact 2000 59000)
                   (always_status 503) (VString "0x1234") 3 world_full) in
  posts w' = 4%nat /\ 0 <= requestCount (limiter w') <= 30.
Proof.
  cbv zeta. split; [vm_compute; reflexivity|].
  apply (proj2 (proj2 (call_is_bounded (clock_exact 2000 59000)
                         (always_status 503) (VString "0x1234") 3 world_full))).
  cbn. lia.
Defined.
